(** * Gallery renderer (assets/js/gallery.js): a shallow embedding

    The script exists in two variants: the one with the masonry layout and
    responsive picture elements, and the plain one.  Both are embedded here;
    where they differ the definitions take the variant as an argument. *)

From Stdlib Require Import ZArith QArith Qround Floats Ascii.
From stdpp Require Import base option list strings gmap.

Local Open Scope string_scope.
Local Open Scope list_scope.

(** ** JavaScript values that the script moves around *)

Inductive Variant := WithMasonry | Plain.

(** A property read yields a string, [undefined], or (for a lookup in an
    object literal) a member inherited from [Object.prototype]. *)
Inductive JsValue :=
| undefined
| JStr (s : string)
| JInherited (key : string).

Definition truthy (v : JsValue) : bool :=
  match v with
  | undefined => false
  | JStr s => negb (String.eqb s "")
  | JInherited _ => true
  end.

(** [a || b] *)
Definition js_or (a b : JsValue) : JsValue := if truthy a then a else b.

(** String conversion, as a template literal or [createTextNode] performs it. *)
Definition String_of (v : JsValue) : string :=
  match v with
  | undefined => "undefined"
  | JStr s => s
  | JInherited key =>
      if String.eqb key "__proto__" then "[object Object]"
      else "function " +:+ (if String.eqb key "constructor" then "Object" else key)
           +:+ "() { [native code] }"
  end.

(** ** Constants *)

Definition MANIFEST_URL : string := "assets/images/manifest.json".

Definition CATEGORY_ORDER : list string :=
  ["portraits"; "photo-tours"; "landscapes"; "brand-creative"; "food"].

Definition CATEGORY_TITLES_own : list (string * string) :=
  [("portraits", "Portraits");
   ("photo-tours", "Photo Tours");
   ("landscapes", "Landscape");
   ("brand-creative", "Brand & Creative");
   ("food", "Food")].

Definition Object_prototype_keys : list string :=
  ["constructor"; "__proto__"; "hasOwnProperty"; "isPrototypeOf";
   "propertyIsEnumerable"; "toLocaleString"; "toString"; "valueOf";
   "__defineGetter__"; "__defineSetter__"; "__lookupGetter__"; "__lookupSetter__"].

Fixpoint assoc (k : string) (l : list (string * string)) : option string :=
  match l with
  | [] => None
  | (k', v) :: r => if String.eqb k k' then Some v else assoc k r
  end.

(** [CATEGORY_TITLES[name]]: own properties first, then the prototype. *)
Definition CATEGORY_TITLES (name : string) : JsValue :=
  match assoc name CATEGORY_TITLES_own with
  | Some t => JStr t
  | None => if bool_decide (name ∈ Object_prototype_keys) then JInherited name
            else undefined
  end.

(** ** String helpers *)

Definition is_separator (c : ascii) : bool :=
  Ascii.eqb c "-" || Ascii.eqb c "_".

Definition in_range (lo hi : nat) (c : ascii) : bool :=
  Nat.leb lo (nat_of_ascii c) && Nat.leb (nat_of_ascii c) hi.

Definition is_lower (c : ascii) : bool := in_range 97 122 c.

(** The class [\w]. *)
Definition is_word (c : ascii) : bool :=
  in_range 97 122 c || in_range 65 90 c || in_range 48 57 c || Ascii.eqb c "_".

Definition toUpperCase (c : ascii) : ascii :=
  if is_lower c then ascii_of_nat (nat_of_ascii c - 32) else c.

(** [.replace(/[-_]+/g, ' ')]: [in_run] tells that the previous character
    belonged to the run being replaced. *)
Fixpoint replace_separators (in_run : bool) (s : string) : string :=
  match s with
  | EmptyString => EmptyString
  | String c r =>
      if is_separator c
      then (if in_run then replace_separators true r
            else String " " (replace_separators true r))
      else String c (replace_separators false r)
  end.

(** [.replace(/\b\w/g, m => m.toUpperCase())]: [after_word] tells that the
    previous character was a word character. *)
Fixpoint capitalize_words (after_word : bool) (s : string) : string :=
  match s with
  | EmptyString => EmptyString
  | String c r =>
      if is_word c
      then String (if after_word then c else toUpperCase c) (capitalize_words true r)
      else String c (capitalize_words false r)
  end.

Definition humanize (name : string) : string :=
  capitalize_words false (replace_separators false name).

(** Splits [s] at its last dot: the text before the dot and the text after. *)
Fixpoint split_last_dot (s : string) : option (string * string) :=
  match s with
  | EmptyString => None
  | String c r =>
      match split_last_dot r with
      | Some (pre, suf) => Some (String c pre, suf)
      | None => if Ascii.eqb c "." then Some (EmptyString, r) else None
      end
  end.

(** The text that [String.prototype.replace] puts in for a match of a
    pattern without capture groups, given the replacement string: [$$] stands
    for a dollar sign, [$&] for the matched text, [$`] for the text before
    the match and [$'] for the text after it; any other character, a dollar
    sign before anything else included, stands for itself. *)
Fixpoint GetSubstitution (matched before after : string) (replacement : string)
  : string :=
  match replacement with
  | EmptyString => EmptyString
  | String c tl =>
      if Ascii.eqb c "$"
      then match tl with
           | String c' r =>
               if Ascii.eqb c' "$" then String "$" (GetSubstitution matched before after r)
               else if Ascii.eqb c' "&"
                    then matched +:+ GetSubstitution matched before after r
               else if Ascii.eqb c' "`"
                    then before +:+ GetSubstitution matched before after r
               else if Ascii.eqb c' "'"
                    then after +:+ GetSubstitution matched before after r
               else String "$" (GetSubstitution matched before after tl)
           | EmptyString => String "$" EmptyString
           end
      else String c (GetSubstitution matched before after tl)
  end.

(** [src.replace(/\.[^.]+$/, ext)]: the match, if there is one, is the last
    dot with the non-empty text after it, and nothing follows the match. *)
Definition withExtension (src ext : string) : string :=
  match split_last_dot src with
  | Some (pre, suf) =>
      if String.eqb suf "" then src
      else pre +:+ GetSubstitution ("." +:+ suf) pre "" ext
  | None => src
  end.

(** ** DOM nodes built by [el] *)

(** An element holds its [class] attribute in [className] and its other
    content attributes in [attributes], under the names that [el] is given:
    the program names its attributes in lower case, as the DOM keeps them. *)
#[warnings="-register-all"]
Inductive Node :=
| Elem (tag : string) (className : string) (textContent : option string)
       (attributes : list (string * string)) (children : list Node)
| TextNode (data : string).

Fixpoint setAttribute (k v : string) (attrs : list (string * string))
  : list (string * string) :=
  match attrs with
  | [] => [(k, v)]
  | (k', v') :: r =>
      if String.eqb k k' then (k, v) :: r else (k', v') :: setAttribute k v r
  end.

Definition getAttribute (k : string) (attrs : list (string * string)) : option string :=
  assoc k attrs.

Definition appendChild (parent child : Node) : Node :=
  match parent with
  | Elem tag cls txt attrs kids => Elem tag cls txt attrs (kids ++ [child])
  | TextNode d => TextNode d
  end.

Definition el_entry (node : Node) (kv : string * string) : Node :=
  match node with
  | Elem tag cls txt attrs kids =>
      let '(k, v) := kv in
      if String.eqb k "class" then Elem tag v txt attrs kids
      else if String.eqb k "text" then Elem tag cls (Some v) attrs []
      else Elem tag cls txt (setAttribute k v attrs) kids
  | TextNode d => TextNode d
  end.

Definition el (tag : string) (attrs : list (string * string)) (children : list Node) : Node :=
  foldl appendChild (foldl el_entry (Elem tag "" None [] []) attrs) children.

Definition figureFor (v : Variant) (src alt : string) : Node :=
  match v with
  | WithMasonry =>
      let img := el "img" [("src", src); ("alt", alt); ("loading", "lazy");
                           ("decoding", "async")] [] in
      let picture := el "picture" []
        [el "source" [("type", "image/avif"); ("srcset", withExtension src ".avif")] [];
         el "source" [("type", "image/webp"); ("srcset", withExtension src ".webp")] [];
         img] in
      el "figure" [("class", "gallery-item")] [picture]
  | Plain =>
      let img := el "img" [("src", src); ("alt", alt); ("loading", "lazy")] [] in
      el "figure" [("class", "gallery-item")] [img]
  end.

(** ** Manifest *)

Record Category := mkCategory {
  name : string;
  title : JsValue;
  images : option (list string)
}.

Record Manifest := mkManifest {
  basePath : string;
  categories : option (list Category)
}.

(** [cat.images && cat.images.length] *)
Definition has_images (cat : Category) : bool :=
  match images cat with
  | Some (_ :: _) => true
  | _ => false
  end.

Definition images_or_empty (cat : Category) : list string :=
  default [] (images cat).

(** [{...cat, title: CATEGORY_TITLES[cat.name] || cat.title || humanize(cat.name)}] *)
Definition with_title (cat : Category) : Category :=
  mkCategory (name cat)
    (js_or (js_or (CATEGORY_TITLES (name cat)) (title cat)) (JStr (humanize (name cat))))
    (images cat).

(** [new Map(entries)]: a later entry for the same key replaces the value. *)
Definition Map_of (entries : list (string * Category)) : gmap string Category :=
  foldl (fun m kv => <[kv.1 := kv.2]> m) ∅ entries.

Definition prioritizeCategories (allCategories : option (list Category)) : list Category :=
  let valid := List.filter has_images (default [] allCategories) in
  let byName := Map_of ((fun cat => (name cat, cat)) <$> valid) in
  let prioritized := with_title <$> omap (fun n => byName !! n) CATEGORY_ORDER in
  match prioritized with
  | _ :: _ => prioritized
  | [] => with_title <$> valid
  end.

(** The category list of [renderPortfolio]. *)
Definition resolve_categories (v : Variant) (m : Manifest) : list Category :=
  match v with
  | WithMasonry => prioritizeCategories (categories m)
  | Plain => List.filter has_images (default [] (categories m))
  end.

(** The label of a tab and the title in the alt text:
    [cat.title || humanize(cat.name)]. *)
Definition display_title (cat : Category) : JsValue :=
  js_or (title cat) (JStr (humanize (name cat))).

(** ** Elements that the script mutates after creating them *)

Definition Node_setAttribute (k v : string) (n : Node) : Node :=
  match n with
  | Elem tag cls txt attrs kids => Elem tag cls txt (setAttribute k v attrs) kids
  | TextNode d => TextNode d
  end.

Definition Node_getAttribute (k : string) (n : Node) : option string :=
  match n with
  | Elem _ _ _ attrs _ => getAttribute k attrs
  | TextNode _ => None
  end.

Definition Node_className (n : Node) : option string :=
  match n with
  | Elem _ cls _ _ _ => Some cls
  | TextNode _ => None
  end.

Definition is_space (c : ascii) : bool :=
  Ascii.eqb c " " || in_range 9 10 c || in_range 12 13 c.

(** The tokens of a class attribute; [cur] is the token being read. *)
Fixpoint class_tokens_from (cur : string) (s : string) : list string :=
  match s with
  | EmptyString => if String.eqb cur "" then [] else [cur]
  | String c r =>
      if is_space c
      then (if String.eqb cur "" then class_tokens_from "" r
            else cur :: class_tokens_from "" r)
      else class_tokens_from (cur +:+ String c "") r
  end.

Definition class_tokens (cls : string) : list string := class_tokens_from "" cls.

Definition classList_contains (tok cls : string) : bool :=
  bool_decide (tok ∈ class_tokens cls).

Fixpoint join_spaces (toks : list string) : string :=
  match toks with
  | [] => ""
  | [t] => t
  | t :: r => t +:+ " " +:+ join_spaces r
  end.

(** Appending to an ordered set: an item that the set holds already is not
    appended again. *)
Definition set_append (set : list string) (item : string) : list string :=
  if bool_decide (item ∈ set) then set else set ++ [item].

(** The token set of a class attribute: of a repeated token the first
    occurrence counts. *)
Definition token_set (cls : string) : list string :=
  foldl set_append [] (class_tokens cls).

(** [classList.add(tok)]: the attribute becomes the serialized token set. *)
Definition classList_add (tok cls : string) : string :=
  join_spaces (set_append (token_set cls) tok).

(** A tab button: the node made by [el], and its [tabIndex] property. *)
Record TabEl := mkTab {
  tab_node : Node;
  tabIndex : Z
}.

Definition aria_selected (t : TabEl) : option string :=
  Node_getAttribute "aria-selected" (tab_node t).

(** A child of a gallery: the figure, and its [style.gridRowEnd] as the
    number [n] of [`span ${n}`] once the layout has set it. *)
Record GalleryItem := mkItem {
  item_node : Node;
  gridRowEnd : option float
}.

(** A gallery [div]: [raf] is the request id variable of the [enableMasonry]
    closure that belongs to it ([true]: a frame is requested). *)
Record GalleryEl := mkGallery {
  g_className : string;
  dataset_masonry : option string;
  raf : bool;
  g_children : list GalleryItem
}.

(** A panel: the [div] made by [el], its [hidden] property and the gallery
    appended to it. *)
Record PanelEl := mkPanel {
  panel_node : Node;
  hidden : bool;
  panel_gallery : GalleryEl
}.

(** What a call of [renderPortfolio] closes over. *)
Record TabSet := mkTabSet {
  cats : list Category;
  tabEls : list TabEl;
  panelEls : list PanelEl
}.

(** A child of a mount root: a node that is never touched again, or the tab
    list or panel wrapper of the tab set with the given number, whose children
    are the very elements held in [tabEls] and [panelEls]. *)
Inductive Child :=
| Static (n : Node)
| TabList (n : Node) (k : nat)
| PanelsWrap (n : Node) (k : nat).

(** What [fetch(MANIFEST_URL)] and [res.json()] will give. *)
Inductive FetchResult :=
| NetworkFailure
| Response (ok : bool) (json : option Manifest).

(** ** The page *)

Record World := mkWorld {
  location_protocol : string;
  location_hash : string;
  history_length : nat;
  replaceState_throws : bool;
  network : FetchResult;
  fetch_log : list string;
  document : list (string * list Child);
  tabsets : list TabSet;
  hashchange_listeners : list nat;
  activeElement : option (nat * nat)
}.

Definition set_hash (h : string) (grow : nat) (w : World) : World :=
  mkWorld (location_protocol w) h (history_length w + grow) (replaceState_throws w)
    (network w) (fetch_log w) (document w) (tabsets w) (hashchange_listeners w)
    (activeElement w).

Definition log_fetch (url : string) (w : World) : World :=
  mkWorld (location_protocol w) (location_hash w) (history_length w)
    (replaceState_throws w) (network w) (fetch_log w ++ [url]) (document w) (tabsets w)
    (hashchange_listeners w) (activeElement w).

Definition set_document (d : list (string * list Child)) (w : World) : World :=
  mkWorld (location_protocol w) (location_hash w) (history_length w)
    (replaceState_throws w) (network w) (fetch_log w) d (tabsets w)
    (hashchange_listeners w) (activeElement w).

Definition set_tabsets (ts : list TabSet) (w : World) : World :=
  mkWorld (location_protocol w) (location_hash w) (history_length w)
    (replaceState_throws w) (network w) (fetch_log w) (document w) ts
    (hashchange_listeners w) (activeElement w).

Definition add_hashchange_listener (k : nat) (w : World) : World :=
  mkWorld (location_protocol w) (location_hash w) (history_length w)
    (replaceState_throws w) (network w) (fetch_log w) (document w) (tabsets w)
    (hashchange_listeners w ++ [k]) (activeElement w).

Definition set_activeElement (k i : nat) (w : World) : World :=
  mkWorld (location_protocol w) (location_hash w) (history_length w)
    (replaceState_throws w) (network w) (fetch_log w) (document w) (tabsets w)
    (hashchange_listeners w) (Some (k, i)).

(** ** Completions: a call returns or throws, and changes the page either way *)

Inductive Exn :=
| Error (message : string)
| TypeError
| SyntaxError
| NetworkError.

Inductive Completion (A : Type) :=
| Normal (a : A)
| Throw (e : Exn).
Arguments Normal {A} a.
Arguments Throw {A} e.

Definition M (A : Type) : Type := World -> Completion A * World.

Definition ret {A} (a : A) : M A := fun w => (Normal a, w).
Definition throw {A} (e : Exn) : M A := fun w => (Throw e, w).
Definition bind {A B} (m : M A) (f : A -> M B) : M B :=
  fun w => match m w with
           | (Normal a, w') => f a w'
           | (Throw e, w') => (Throw e, w')
           end.
Definition try_catch {A} (body : M A) (handler : Exn -> M A) : M A :=
  fun w => match body w with
           | (Normal a, w') => (Normal a, w')
           | (Throw e, w') => handler e w'
           end.
Definition get : M World := fun w => (Normal w, w).
Definition modify (f : World -> World) : M unit := fun w => (Normal tt, f w).

Notation "'let!' x ':=' m 'in' k" := (bind m (fun x => k))
  (at level 10, x name, m at level 100, k at level 200).
Notation "'do!' m 'in' k" := (bind m (fun _ => k))
  (at level 10, m at level 100, k at level 200).

(** An array read [l[i]] with a number for [i]. *)
Definition js_index {A} (l : list A) (i : Z) : option A :=
  if (0 <=? i)%Z then l !! Z.to_nat i else None.

(** [cats.findIndex(c => c.name === wanted)] *)
Definition findIndex (wanted : string) (l : list Category) : Z :=
  match list_find (fun c => name c = wanted) l with
  | Some (i, _) => Z.of_nat i
  | None => (-1)%Z
  end.

(** [s.replace('#', '')]: the first [#] is removed. *)
Fixpoint remove_first_hash (s : string) : string :=
  match s with
  | EmptyString => EmptyString
  | String c r => if Ascii.eqb c "#" then r else String c (remove_first_hash r)
  end.

(** [location.hash] of a page whose URL fragment is [fragment]. *)
Definition hash_of_fragment (fragment : string) : string :=
  if String.eqb fragment "" then "" else "#" +:+ fragment.

(** The children of the first element that carries the id. *)
Definition lookup_root (rootId : string) (d : list (string * list Child))
  : option (list Child) :=
  snd <$> List.find (fun e => String.eqb (fst e) rootId) d.

(** [document.getElementById(rootId)] for the ids of the page as it was
    served: the elements of [document].  The ids that the script itself gives
    to its tabs and panels ([created_ids] below) are not looked up here. *)
Definition getElementById (rootId : string) (w : World) : option (list Child) :=
  lookup_root rootId (document w).

(** [root.appendChild(c)] on the element that [getElementById] found. *)
Fixpoint append_to (rootId : string) (c : Child) (d : list (string * list Child))
  : list (string * list Child) :=
  match d with
  | [] => []
  | (id, kids) :: r =>
      if String.eqb id rootId then (id, kids ++ [c]) :: r
      else (id, kids) :: append_to rootId c r
  end.

Definition root_appendChild (rootId : string) (c : Child) : M unit :=
  modify (fun w => set_document (append_to rootId c (document w)) w).

Definition loadManifest : M Manifest :=
  let! w := get in
  if String.eqb (location_protocol w) "file:"
  then throw (Error "Local file protocol blocks fetch; run a local server.")
  else
    do! modify (log_fetch MANIFEST_URL) in
    match network w with
    | NetworkFailure => throw NetworkError
    | Response ok json =>
        if negb ok then throw (Error "Failed to load manifest")
        else match json with
             | Some m => ret m
             | None => throw SyntaxError
             end
    end.

(** ** Masonry layout *)

Definition MASONRY_ROW_HEIGHT : float := 8%float.

(** [Math.ceil] on a double, through its mantissa and exponent. *)
Definition Math_ceil (x : float) : float :=
  match Prim2SF x with
  | S754_finite s m e =>
      if (0 <=? e)%Z then x
      else
        let d := (2 ^ (- e))%Z in
        let q := (Z.pos m / d)%Z in
        if s then (- PrimFloat.of_uint63 (Uint63.of_Z q))%float
        else PrimFloat.of_uint63
               (Uint63.of_Z (if (Z.pos m mod d =? 0)%Z then q else (q + 1)%Z))
  | _ => x
  end.

(** [Math.max(a, b)] *)
Definition Math_max (a b : float) : float :=
  if PrimFloat.is_nan a || PrimFloat.is_nan b then PrimFloat.nan
  else if (a <? b)%float then b
  else if (b <? a)%float then a
  else if PrimFloat.get_sign a then b else a.

(** [x || y] on numbers: [0], [-0] and [NaN] are falsy. *)
Definition number_or (x y : float) : float :=
  if PrimFloat.is_nan x || PrimFloat.is_zero x then y else x.

(** What the browser reports about a gallery when [layoutMasonry] runs:
    [gallery.isConnected], the number of boxes of [getClientRects()], the
    computed [rowGap] and [gap], and the height of the bounding box of the
    child at each position. *)
Record Layout := mkLayout {
  isConnected : bool;
  clientRects : nat;
  rowGap : string;
  gap : string;
  rect_height : nat -> float
}.

Definition is_gallery_item (it : GalleryItem) : bool :=
  match Node_className (item_node it) with
  | Some cls => classList_contains "gallery-item" cls
  | None => false
  end.

Section Masonry.

(** The built-in [parseFloat]. *)
Variable parseFloat : string -> float.

(** [parseFloat(styles.rowGap || styles.gap) || 0] *)
Definition row_gap (L : Layout) : float :=
  number_or
    (parseFloat (if String.eqb (rowGap L) "" then gap L else rowGap L))
    0%float.

Definition row_span (height g : float) : float :=
  let span := Math_ceil ((height + g) / (MASONRY_ROW_HEIGHT + g))%float in
  Math_max 1%float span.

Definition layout_item (L : Layout) (k : nat) (it : GalleryItem) : GalleryItem :=
  if is_gallery_item it
  then mkItem (item_node it) (Some (row_span (rect_height L k) (row_gap L)))
  else it.

Definition layoutMasonry (L : Layout) (gallery : GalleryEl) : GalleryEl :=
  if negb (isConnected L) then gallery
  else if Nat.eqb (clientRects L) 0 then gallery
  else
    mkGallery (classList_add "gallery-masonry-enabled" (g_className gallery))
      (dataset_masonry gallery) (raf gallery)
      (imap (layout_item L) (g_children gallery)).

(** The callback that [schedule] hands to [requestAnimationFrame]. *)
Definition frame (L : Layout) (gallery : GalleryEl) : GalleryEl :=
  layoutMasonry L
    (mkGallery (g_className gallery) (dataset_masonry gallery) false
       (g_children gallery)).

End Masonry.

Definition schedule (gallery : GalleryEl) : GalleryEl :=
  if raf gallery then gallery
  else mkGallery (g_className gallery) (dataset_masonry gallery) true
         (g_children gallery).

(** [enableMasonry]: the listeners it registers (image load and error,
    window resize) only call [schedule] later; the synchronous effect is the
    one on the gallery. *)
Definition enableMasonry (gallery : GalleryEl) : GalleryEl :=
  if bool_decide (dataset_masonry gallery = Some "on") then gallery
  else
    schedule
      (mkGallery (classList_add "gallery-masonry" (g_className gallery))
         (Some "on") false (g_children gallery)).

(** ** Tabs and panels *)

Definition select_tab (index : Z) (i : nat) (t : TabEl) : TabEl :=
  let selected := (Z.of_nat i =? index)%Z in
  mkTab (Node_setAttribute "aria-selected" (if selected then "true" else "false")
           (tab_node t))
        (if selected then 0%Z else (-1)%Z).

Definition show_panel (index : Z) (i : nat) (p : PanelEl) : PanelEl :=
  mkPanel (panel_node p) (negb (Z.of_nat i =? index)%Z) (panel_gallery p).

(** [panel.querySelector('.gallery')]: the gallery is the first descendant of
    the panel, and no node below it carries the class [gallery]. *)
Definition querySelector_gallery (p : PanelEl) : option GalleryEl :=
  if classList_contains "gallery" (g_className (panel_gallery p))
  then Some (panel_gallery p) else None.

(** [const gallery = panelEls[index]?.querySelector('.gallery');
     if (gallery) enableMasonry(gallery);] *)
Definition enable_gallery_at (index : Z) (panels : list PanelEl) : list PanelEl :=
  match js_index panels index with
  | Some p =>
      match querySelector_gallery p with
      | Some g =>
          <[Z.to_nat index := mkPanel (panel_node p) (hidden p) (enableMasonry g)]> panels
      | None => panels
      end
  | None => panels
  end.

Definition activate_elements (v : Variant) (index : Z) (ts : TabSet) : TabSet :=
  let tabs := imap (select_tab index) (tabEls ts) in
  let panels := imap (show_panel index) (panelEls ts) in
  mkTabSet (cats ts) tabs
    (match v with
     | WithMasonry => enable_gallery_at index panels
     | Plain => panels
     end).

(** [try { history.replaceState(null, '', `#${name}`) } catch (_) { location.hash = name }]:
    assigning [location.hash] adds a history entry when the fragment changes.
    The fragment is the name as it stands, which is what the browser makes of
    a name of letters, digits, hyphens and underscores ([identifier] below);
    other characters it may percent-encode or strip. *)
Definition write_hash (name : string) (w : World) : World :=
  let h := hash_of_fragment name in
  if replaceState_throws w
  then set_hash h (if String.eqb (location_hash w) h then 0 else 1) w
  else set_hash h 0 w.

(** [activate(index, setHash)] of the tab set number [k]. *)
Definition activate (v : Variant) (k : nat) (index : Z) (setHash : bool) : M unit :=
  let! w := get in
  match tabsets w !! k with
  | None => ret tt
  | Some ts =>
      let ts' := activate_elements v index ts in
      do! modify (set_tabsets (<[k := ts']> (tabsets w))) in
      do! (if setHash
           then match js_index (cats ts) index with
                | Some cat => modify (write_hash (name cat))
                | None => throw TypeError
                end
           else ret tt) in
      match js_index (tabEls ts') index with
      | Some _ => modify (set_activeElement k (Z.to_nat index))
      | None => throw TypeError
      end
  end.

(** The click listener of tab [i]. *)
Definition click (v : Variant) (k i : nat) : M unit :=
  activate v k (Z.of_nat i) true.

(** The keydown listener of tab [i]: which index the key leads to. *)
Definition key_target (key : string) (i : nat) (len : nat) : option Z :=
  if String.eqb key "ArrowRight" then Some (Z.rem (Z.of_nat i + 1) (Z.of_nat len))
  else if String.eqb key "ArrowLeft"
       then Some (Z.rem (Z.of_nat i - 1 + Z.of_nat len) (Z.of_nat len))
  else if String.eqb key "Home" then Some 0%Z
  else if String.eqb key "End" then Some (Z.of_nat len - 1)%Z
  else None.

(** The keydown listener of tab [i]; the first component tells whether
    [e.preventDefault()] was called. *)
Definition keydown (v : Variant) (k i : nat) (key : string)
  : World -> bool * (Completion unit * World) :=
  fun w =>
    match tabsets w !! k with
    | None => (false, (Normal tt, w))
    | Some ts =>
        match key_target key i (length (tabEls ts)) with
        | Some ni => (true, activate v k ni true w)
        | None => (false, (Normal tt, w))
        end
    end.

(** The [hashchange] listener. *)
Definition on_hashchange (v : Variant) (k : nat) : M unit :=
  let! w := get in
  match tabsets w !! k with
  | None => ret tt
  | Some ts =>
      let h := remove_first_hash (location_hash w) in
      let idx := findIndex h (cats ts) in
      if (0 <=? idx)%Z then activate v k idx false else ret tt
  end.

(** ** The two entry points *)

Definition alt_text (cat : Category) : string :=
  String_of (display_title cat) +:+ " — Elle Phoenix".

Definition image_src (m : Manifest) (cat : Category) (file : string) : string :=
  basePath m +:+ "/" +:+ name cat +:+ "/" +:+ file.

Definition status_message (msg : string) : Child :=
  Static (el "p" [("class", "muted"); ("text", msg)] []).

Definition make_tab (cat : Category) : TabEl :=
  mkTab
    (el "button"
       [("class", "tab"); ("role", "tab"); ("id", "tab-" +:+ name cat);
        ("aria-selected", "false"); ("aria-controls", "panel-" +:+ name cat)]
       [TextNode (String_of (display_title cat))])
    (-1)%Z.

(** The categories that reach this point passed the image filter, so
    [cat.images] is an array. *)
Definition make_panel (v : Variant) (m : Manifest) (cat : Category) : PanelEl :=
  mkPanel
    (el "div"
       [("class", "tab-panel"); ("id", "panel-" +:+ name cat); ("role", "tabpanel");
        ("aria-labelledby", "tab-" +:+ name cat)] [])
    true
    (mkGallery (match v with
                | WithMasonry => "gallery gallery-masonry"
                | Plain => "gallery"
                end)
       None false
       ((fun file => mkItem (figureFor v (image_src m cat file) (alt_text cat)) None)
          <$> images_or_empty cat)).

Definition tablist_node : Node :=
  el "div" [("class", "tabs"); ("role", "tablist");
            ("aria-label", "Portfolio categories")] [].

Definition renderPortfolio (v : Variant) (rootId : string) : M unit :=
  let! w0 := get in
  match getElementById rootId w0 with
  | None => ret tt
  | Some _ =>
      try_catch
        (let! manifest := loadManifest in
         let cats := resolve_categories v manifest in
         match cats with
         | [] => root_appendChild rootId (status_message "No images found.")
         | _ :: _ =>
             let! w := get in
             let k := length (tabsets w) in
             do! modify (set_tabsets
                           (tabsets w ++
                            [mkTabSet cats (make_tab <$> cats)
                               (make_panel v manifest <$> cats)])) in
             do! root_appendChild rootId (TabList tablist_node k) in
             do! root_appendChild rootId (PanelsWrap (el "div" [] []) k) in
             let wanted := remove_first_hash (location_hash w) in
             let initialIndex := Z.max 0 (findIndex wanted cats) in
             do! activate v k initialIndex false in
             modify (add_hashchange_listener k)
         end)
        (fun _ =>
           let! w := get in
           root_appendChild rootId
             (status_message
                (if String.eqb (location_protocol w) "file:"
                 then "Galleries need a local server. Run `make serve` and reload."
                 else "No images found.")))
  end.

(** [flat.slice(0, count)] *)
Definition slice0 {A} (l : list A) (count : Z) : list A :=
  let len := Z.of_nat (length l) in
  take (Z.to_nat (if (count <? 0)%Z then Z.max (len + count) 0 else Z.min count len)) l.

Fixpoint forEach {A} (f : A -> M unit) (l : list A) : M unit :=
  match l with
  | [] => ret tt
  | x :: r => do! f x in forEach f r
  end.

(** The list [flat] of [renderFeatured]: source and alt text of every image. *)
Definition flatten (m : Manifest) (cs : list Category) : list (string * string) :=
  cs ≫= (fun cat => (fun file => (image_src m cat file, alt_text cat))
                       <$> images_or_empty cat).

(** [count] is [None] when the caller leaves it out. *)
Definition renderFeatured (v : Variant) (rootId : string) (count : option Z) : M unit :=
  let count := default 6%Z count in
  let! w0 := get in
  match getElementById rootId w0 with
  | None => ret tt
  | Some _ =>
      try_catch
        (let! manifest := loadManifest in
         match categories manifest with
         | None => throw TypeError
         | Some cs =>
             let flat := flatten manifest cs in
             let take := slice0 flat count in
             forEach (fun it => root_appendChild rootId
                                  (Static (figureFor v (fst it) (snd it)))) take
         end)
        (fun _ =>
           let! w := get in
           root_appendChild rootId
             (status_message
                (if String.eqb (location_protocol w) "file:"
                 then "Featured images need a local server. Run `make serve` and reload."
                 else "No featured images found.")))
  end.

(** ** Auxiliary definitions for the statements *)

Definition is_element (n : Node) : bool :=
  match n with
  | Elem _ _ _ _ _ => true
  | TextNode _ => false
  end.

(** What holds of every tab set that [renderPortfolio] has built, whatever
    was activated since: one tab button and one panel per category. *)
Record rendered (ts : TabSet) : Prop := mkRendered {
  rendered_tabs : length (tabEls ts) = length (cats ts);
  rendered_panels : length (panelEls ts) = length (cats ts);
  rendered_buttons : Forall (fun t => is_element (tab_node t) = true) (tabEls ts)
}.

(** The page after [activate(i, setHash)] with [i] a valid index. *)
Definition activated (v : Variant) (k i : nat) (setHash : bool) (ts : TabSet)
    (w : World) : World :=
  let w1 := set_tabsets (<[k := activate_elements v (Z.of_nat i) ts]> (tabsets w)) w in
  let w2 := match setHash, cats ts !! i with
            | true, Some cat => write_hash (name cat) w1
            | _, _ => w1
            end in
  set_activeElement k i w2.

(** A small manifest, a page that is about to render it, the page after
    [renderPortfolio] has run on it, and the tab set built there, for trying
    the statements out. *)
Definition sample_manifest : Manifest :=
  mkManifest "img"
    (Some [mkCategory "food" undefined (Some ["a.jpg"; "b.jpg"]);
           mkCategory "street-life" undefined (Some ["s.jpg"]);
           mkCategory "empty" undefined (Some []);
           mkCategory "portraits" (JStr "People") (Some ["p.jpg"])]).

Definition fresh_page (hash : string) (m : Manifest) : World :=
  mkWorld "https:" hash 1 false (Response true (Some m)) []
    [("featured", []); ("portfolio", [Static (TextNode "Portfolio")])] [] [] None.

Definition sample_page (v : Variant) (hash : string) : World :=
  snd (renderPortfolio v "portfolio" (fresh_page hash sample_manifest)).

Definition sample_tabset (v : Variant) (hash : string) : TabSet :=
  default (mkTabSet [] [] []) (tabsets (sample_page v hash) !! 0).

Definition offline_page (protocol : string) : World :=
  mkWorld protocol "" 1 false NetworkFailure [] [("featured", [])] [] [] None.

Definition empty_manifest : Manifest :=
  mkManifest "img" (Some [mkCategory "food" undefined (Some []);
                          mkCategory "portraits" (JStr "People") (Some [])]).

(** The humanized name as the specification words it: the name is split
    at every run of hyphens and underscores, the first letter of each word is
    capitalized, and the words are joined by single spaces. *)
Fixpoint split_words (in_run : bool) (s : string) : list string :=
  match s with
  | EmptyString => [EmptyString]
  | String c r =>
      if is_separator c
      then (if in_run then split_words true r else EmptyString :: split_words true r)
      else match split_words false r with
           | w :: ws => String c w :: ws
           | [] => [String c EmptyString]
           end
  end.

Definition capitalize_first (word : string) : string :=
  match word with
  | EmptyString => EmptyString
  | String c r => String (toUpperCase c) r
  end.

Definition humanize_by_words (name : string) : string :=
  join_spaces (capitalize_first <$> split_words false name).

(** Names made of letters, digits, hyphens and underscores. *)
Fixpoint identifier (s : string) : bool :=
  match s with
  | EmptyString => true
  | String c r => (is_word c || Ascii.eqb c "-") && identifier r
  end.

(** The page that a successful [renderPortfolio] leaves, with [i] the index
    activated first. *)
Definition portfolio_rendered (v : Variant) (rootId : string) (m : Manifest)
    (i : nat) (w : World) : World :=
  let cs := resolve_categories v m in
  let k := length (tabsets w) in
  let ts0 := mkTabSet cs (make_tab <$> cs) (make_panel v m <$> cs) in
  let w1 := log_fetch MANIFEST_URL w in
  let w2 := set_tabsets (tabsets w ++ [ts0]) w1 in
  let w3 := set_document (append_to rootId (TabList tablist_node k) (document w2)) w2 in
  let w4 := set_document
              (append_to rootId (PanelsWrap (el "div" [] []) k) (document w3)) w3 in
  add_hashchange_listener k (activated v k i false ts0 w4).

(** The first [img] element of a subtree, in document order. *)
Fixpoint find_img (n : Node) : option Node :=
  match n with
  | Elem tag _ _ _ kids =>
      if String.eqb tag "img" then Some n
      else (fix go (l : list Node) : option Node :=
              match l with
              | [] => None
              | c :: r => match find_img c with
                          | Some x => Some x
                          | None => go r
                          end
              end) kids
  | TextNode _ => None
  end.

Definition img_src (n : Node) : option string :=
  find_img n ≫= Node_getAttribute "src".

Definition five_images : Manifest :=
  mkManifest "img"
    (Some [mkCategory "food" undefined (Some ["a.jpg"; "b.jpg"]);
           mkCategory "empty" undefined None;
           mkCategory "street-life" undefined (Some ["s.jpg"]);
           mkCategory "portraits" (JStr "People") (Some ["p.jpg"; "q.jpg"])]).

Definition sample_parseFloat (s : string) : float :=
  if String.eqb s "10px" then 10%float
  else if String.eqb s "0px" then 0%float
  else PrimFloat.nan.

Definition sample_gallery : GalleryEl :=
  mkGallery "gallery gallery-masonry" (Some "on") false
    [mkItem (figureFor WithMasonry "img/food/a.jpg" "Food — Elle Phoenix") None;
     mkItem (el "p" [("class", "muted"); ("text", "caption")] []) None;
     mkItem (figureFor WithMasonry "img/food/b.jpg" "Food — Elle Phoenix") None].

Definition sample_layout (connected : bool) : Layout :=
  mkLayout connected 1 "10px" "10px 16px"
    (fun k => match k with 0 => 100%float | 1 => 20%float | _ => 7.5%float end).

(** The number that a double stands for, [(-1)^s * m * 2^e]; infinities and
    NaN stand for none. *)
Definition SF2Q (x : spec_float) : option Q :=
  match x with
  | S754_zero _ => Some 0%Q
  | S754_finite s m e =>
      let n := if s then Z.neg m else Z.pos m in
      Some (match e with
            | Z0 => inject_Z n
            | Z.pos p => inject_Z (n * Z.pos (2 ^ p))
            | Z.neg p => (n # 2 ^ p)%Q
            end)
  | _ => None
  end.

Definition float_value (x : float) : option Q := SF2Q (Prim2SF x).

(** The span as the specification words it, over the numbers:
    [max(1, ceil((h + g) / (fixedRowHeight + g)))] with [fixedRowHeight = 8]. *)
Definition exact_span (h g : Q) : Z :=
  Z.max 1 (Qceiling ((h + g) / (8 + g))%Q).

(** A gallery of one figure that is 64 pixels high, with a row gap of
    [3.2px]; [parseFloat] gives the double next to 3.2. *)
Definition gap_parseFloat (s : string) : float :=
  if String.eqb s "3.2px" then 0x1.999999999999ap+1%float else PrimFloat.nan.

Definition gap_layout : Layout :=
  mkLayout true 1 "3.2px" "3.2px" (fun _ => 64%float).

Definition gap_gallery : GalleryEl :=
  mkGallery "gallery gallery-masonry" (Some "on") false
    [mkItem (figureFor WithMasonry "img/food/a.jpg" "Food — Elle Phoenix") None].

(** ** Auxiliary definitions for the further properties *)

(** Every character of the string passes the test. *)
Fixpoint string_forall (P : ascii -> bool) (s : string) : bool :=
  match s with
  | EmptyString => true
  | String c r => P c && string_forall P r
  end.

Definition is_dot (c : ascii) : bool := Ascii.eqb c ".".

Definition dot_free (s : string) : bool := string_forall (fun c => negb (is_dot c)) s.

Definition separator_free (s : string) : bool :=
  string_forall (fun c => negb (is_separator c)) s.

Definition Node_children (n : Node) : list Node :=
  match n with
  | Elem _ _ _ _ kids => kids
  | TextNode _ => []
  end.

Definition Node_tag (n : Node) : option string :=
  match n with
  | Elem tag _ _ _ _ => Some tag
  | TextNode _ => None
  end.

(** The documents reachable from [d] by appending children to the root. *)
Definition appended (rootId : string) (extra : list Child)
    (d : list (string * list Child)) : list (string * list Child) :=
  foldl (fun d c => append_to rootId c d) d extra.

(** What [activate] does to the panel at the activated index in the masonry
    variant: [enableMasonry] on the gallery that [querySelector] finds. *)
Definition enable_panel (p : PanelEl) : PanelEl :=
  match querySelector_gallery p with
  | Some g => mkPanel (panel_node p) (hidden p) (enableMasonry g)
  | None => p
  end.

(** A class token: not empty, no white space. *)
Definition is_token (tok : string) : bool :=
  negb (String.eqb tok "") && string_forall (fun c => negb (is_space c)) tok.

(** A replacement string without dollar signs stands for itself. *)
Definition dollar_free (s : string) : bool :=
  string_forall (fun c => negb (Ascii.eqb c "$")) s.

Definition is_digit (c : ascii) : bool := in_range 48 57 c.

(** Names that [createElement], [setAttribute] and [getAttribute] take as
    they are: a lower-case letter, then lower-case letters, digits and
    hyphens.  Other names the DOM turns to lower case or refuses. *)
Definition html_name (s : string) : bool :=
  match s with
  | EmptyString => false
  | String c r =>
      is_lower c
      && string_forall (fun c => is_lower c || is_digit c || Ascii.eqb c "-") r
  end.

(** The ids that [renderPortfolio] has given to the tabs and panels of the
    tab sets of the page. *)
Definition created_ids (w : World) : list string :=
  tabsets w ≫= (fun ts =>
    omap (fun t => Node_getAttribute "id" (tab_node t)) (tabEls ts)
    ++ omap (fun p => Node_getAttribute "id" (panel_node p)) (panelEls ts)).

(** The closure of [enableMasonry] together with the window's side of it.
    [raf] is the variable of the closure: [null], or the id that
    [requestAnimationFrame] returned.  [callbacks] are the ids of the
    callbacks of this closure that the window holds for the next frame,
    [next_id] is the id that [requestAnimationFrame] gives out next, and
    [layouts] counts the runs of [layoutMasonry(gallery)]. *)
Module Frames.

Record State := mkState {
  raf : option nat;
  callbacks : list nat;
  next_id : nat;
  layouts : nat
}.

Definition requestAnimationFrame (s : State) : nat * State :=
  (next_id s, mkState (raf s) (callbacks s ++ [next_id s]) (S (next_id s)) (layouts s)).

(** [if (raf !== null) return; raf = window.requestAnimationFrame(...)] *)
Definition schedule (s : State) : State :=
  match raf s with
  | Some _ => s
  | None =>
      let '(id, s') := requestAnimationFrame s in
      mkState (Some id) (callbacks s') (next_id s') (layouts s')
  end.

(** [() => { raf = null; layoutMasonry(gallery); }] *)
Definition callback (s : State) : State :=
  mkState None (callbacks s) (next_id s) (S (layouts s)).

(** A frame: the window runs the callbacks that it holds, once each. *)
Definition run_frame (s : State) : State :=
  foldl (fun s _ => callback s)
    (mkState (raf s) [] (next_id s) (layouts s)) (callbacks s).

(** What the gallery record of the main model keeps of this state. *)
Definition requested (s : State) : bool :=
  match raf s with Some _ => true | None => false end.

End Frames.

(** * Properties *)

(** ** Strings *)

Example humanize_photo_tours : humanize "photo-tours" = "Photo Tours".
Proof. reflexivity. Qed.

Example humanize_runs : humanize "black__and-_white" = "Black And White".
Proof. reflexivity. Qed.

Example withExtension_jpg : withExtension "img/food/a.jpg" ".avif" = "img/food/a.avif".
Proof. reflexivity. Qed.

Example withExtension_none : withExtension "img/food/a." ".avif" = "img/food/a.".
Proof. reflexivity. Qed.

Lemma split_words_nonempty in_run s : split_words in_run s <> [].
Proof.
  revert in_run. induction s as [|c r IH]; intros in_run; simpl; [done|].
  destruct (is_separator c).
  - destruct in_run; [apply IH | done].
  - by destruct (split_words false r).
Qed.

Lemma join_spaces_cons_char c w ws :
  join_spaces (String c w :: ws) = String c (join_spaces (w :: ws)).
Proof. by destruct ws. Qed.

Lemma join_spaces_cons_empty ws :
  ws <> [] -> join_spaces (EmptyString :: ws) = String " " (join_spaces ws).
Proof. by destruct ws. Qed.

Lemma space_not_word : is_word " " = false.
Proof. reflexivity. Qed.

Lemma humanize_split s :
  identifier s = true ->
  capitalize_words false (replace_separators false s)
    = join_spaces (capitalize_first <$> split_words false s) /\
  capitalize_words true (replace_separators false s)
    = join_spaces (match split_words false s with
                   | w :: ws => w :: (capitalize_first <$> ws)
                   | [] => []
                   end) /\
  capitalize_words false (replace_separators true s)
    = join_spaces (capitalize_first <$> split_words true s).
Proof.
  induction s as [|c r IH]; [done|].
  intros Hid. cbn [identifier] in Hid. apply andb_prop in Hid as [Hc Hr].
  destruct (IH Hr) as (IHa & IHb & IHc).
  cbn [replace_separators split_words].
  destruct (is_separator c) eqn:Es.
  - cbn [capitalize_words]. rewrite space_not_word, IHc.
    rewrite fmap_cons. cbn [capitalize_first].
    assert (capitalize_first <$> split_words true r <> []) as Hne.
    { pose proof (split_words_nonempty true r). by destruct (split_words true r). }
    rewrite !join_spaces_cons_empty by done. done.
  - assert (is_word c = true) as Hw.
    { unfold is_separator in Es. apply orb_false_elim in Es as [E1 E2].
      apply orb_prop in Hc as [Hc|Hc]; [done | congruence]. }
    cbn [capitalize_words]. rewrite Hw, IHb.
    destruct (split_words false r) as [|w ws] eqn:E.
    { by apply split_words_nonempty in E. }
    rewrite !fmap_cons. cbn [capitalize_first].
    rewrite !join_spaces_cons_char. done.
Qed.

(** On identifiers, [humanize] is the humanized form that the specification
    describes. *)
Lemma humanize_by_words_correct s :
  identifier s = true -> humanize s = humanize_by_words s.
Proof. intros H. by apply humanize_split in H as [H _]. Qed.

Example humanize_by_words_example :
  humanize_by_words "brand_new--photo-tours" = "Brand New Photo Tours".
Proof. reflexivity. Qed.

(** Outside identifiers the two part: a dot starts a word for [humanize]. *)
Example humanize_dot : humanize "a.b" = "A.B" /\ humanize_by_words "a.b" = "A.b".
Proof. split; reflexivity. Qed.

(** ** The category resolver *)

Section MapOf.

Implicit Types (m : gmap string Category) (l : list (string * Category)).

Lemma foldl_insert_Some l : forall m k c,
  foldl (fun m kv => <[kv.1 := kv.2]> m) m l !! k = Some c ->
  (k, c) ∈ l \/ m !! k = Some c.
Proof.
  induction l as [|[k' c'] l IH]; intros m k c H; simpl in *.
  - by right.
  - apply IH in H as [H|H].
    + left. by apply list_elem_of_further.
    + destruct (decide (k' = k)) as [->|Hne].
      * rewrite lookup_insert_eq in H. injection H as ->. left. apply list_elem_of_here.
      * rewrite lookup_insert_ne in H by done. by right.
Qed.

Lemma foldl_insert_None l : forall m k,
  foldl (fun m kv => <[kv.1 := kv.2]> m) m l !! k = None <->
  (k ∉ l.*1) /\ m !! k = None.
Proof.
  induction l as [|[k' c'] l IH]; intros m k; simpl.
  - split; [intros H; split; [apply not_elem_of_nil | done] | by intros [_ H]].
  - rewrite IH, not_elem_of_cons.
    destruct (decide (k' = k)) as [->|Hne].
    + rewrite lookup_insert_eq. intuition congruence.
    + rewrite lookup_insert_ne by done. intuition congruence.
Qed.

Lemma Map_of_Some l k c : Map_of l !! k = Some c -> (k, c) ∈ l.
Proof.
  intros H. apply foldl_insert_Some in H as [H|H]; [done|].
  by rewrite lookup_empty in H.
Qed.

Lemma Map_of_None l k : Map_of l !! k = None <-> k ∉ l.*1.
Proof.
  unfold Map_of. rewrite foldl_insert_None, lookup_empty. tauto.
Qed.

End MapOf.

Lemma byName_Some (valid : list Category) n c :
  Map_of ((fun cat => (name cat, cat)) <$> valid) !! n = Some c ->
  c ∈ valid /\ name c = n.
Proof.
  intros H. apply Map_of_Some in H.
  apply list_elem_of_fmap in H as (c' & Heq & Hin).
  injection Heq as -> ->. done.
Qed.

Lemma byName_None (valid : list Category) n :
  Map_of ((fun cat => (name cat, cat)) <$> valid) !! n = None <->
  n ∉ name <$> valid.
Proof.
  rewrite Map_of_None.
  by rewrite <- list_fmap_compose.
Qed.

(** The categories picked through the priority list, by name. *)
Lemma prioritized_names (valid : list Category) (order : list string) :
  name <$> omap (fun n => Map_of ((fun cat => (name cat, cat)) <$> valid) !! n) order
  = filter (fun n => n ∈ name <$> valid) order.
Proof.
  induction order as [|n order IH]; simpl; [done|].
  destruct (Map_of _ !! n) as [c|] eqn:E.
  - pose proof E as E'. apply byName_Some in E' as [Hin Hn].
    rewrite filter_cons_True.
    + rewrite fmap_cons. f_equal; [done | apply IH].
    + rewrite <- Hn. apply list_elem_of_fmap. eauto.
  - apply byName_None in E. by rewrite filter_cons_False.
Qed.

Lemma prioritized_sources (valid : list Category) (order : list string) c :
  c ∈ omap (fun n => Map_of ((fun cat => (name cat, cat)) <$> valid) !! n) order ->
  c ∈ valid.
Proof.
  intros H. apply list_elem_of_omap in H as (n & _ & H).
  by apply byName_Some in H as [? _].
Qed.

Lemma with_title_name c : name (with_title c) = name c.
Proof. done. Qed.

Lemma with_title_images c : images (with_title c) = images c.
Proof. done. Qed.

Lemma prioritizeCategories_sources all c :
  c ∈ prioritizeCategories all ->
  exists src, src ∈ List.filter has_images (default [] all) /\ c = with_title src.
Proof.
  unfold prioritizeCategories.
  set (valid := List.filter has_images (default [] all)).
  destruct (with_title <$> omap _ CATEGORY_ORDER) as [|p ps] eqn:E.
  - intros H. apply list_elem_of_fmap in H as (src & -> & H). eauto.
  - rewrite <- E. intros H. apply list_elem_of_fmap in H as (src & -> & H).
    apply prioritized_sources in H. eauto.
Qed.

Lemma filter_has_images l c :
  c ∈ List.filter has_images l <-> c ∈ l /\ has_images c = true.
Proof. rewrite !list_elem_of_In. apply filter_In. Qed.

Example prioritize_example :
  name <$> prioritizeCategories (Some
    [mkCategory "food" undefined (Some ["a.jpg"]);
     mkCategory "weddings" undefined (Some ["w.jpg"]);
     mkCategory "portraits" (JStr "People") (Some ["p.jpg"])])
  = ["portraits"; "food"].
Proof. vm_compute. reflexivity. Qed.

Lemma CATEGORY_TITLES_truthy n :
  CATEGORY_TITLES n <> undefined -> truthy (CATEGORY_TITLES n) = true.
Proof.
  unfold CATEGORY_TITLES, CATEGORY_TITLES_own, assoc.
  repeat (destruct (String.eqb n _); [done|]).
  by case_bool_decide.
Qed.

(** C2, as the code has it: the fixed lookup by category name comes first,
    the explicit title second and the humanized name last.  Every resolved
    category stems from a category of the manifest that has images, keeps its
    name and images, and carries the title found in that order; the humanized
    form of a name made of letters, digits, hyphens and underscores is the
    name split at its hyphens and underscores, with the first letter of each
    word capitalized. *)
Theorem resolved_title (all : option (list Category)) (c : Category) :
  c ∈ prioritizeCategories all ->
  exists src,
    src ∈ default [] all /\ has_images src = true /\
    name c = name src /\ images c = images src /\
    title c = match CATEGORY_TITLES (name src) with
              | undefined =>
                  if truthy (title src) then title src
                  else JStr (humanize (name src))
              | found => found
              end /\
    (identifier (name src) = true ->
     humanize (name src) = humanize_by_words (name src)).
Proof.
  intros H. apply prioritizeCategories_sources in H as (src & Hsrc & ->).
  apply filter_has_images in Hsrc as [Hin Himg].
  exists src. repeat split; try done; [|apply humanize_by_words_correct].
  unfold with_title; simpl.
  pose proof (CATEGORY_TITLES_truthy (name src)) as Ht.
  destruct (CATEGORY_TITLES (name src)) as [| t | key] eqn:E.
  - unfold js_or at 2. simpl. unfold js_or. by destruct (truthy (title src)).
  - unfold js_or at 2. rewrite Ht by done. unfold js_or. by rewrite Ht.
  - done.
Qed.

Lemma resolved_title_witness :
  exists src,
    src ∈ [mkCategory "wedding_days" (JStr "") (Some ["w.jpg"])] /\
    has_images src = true /\
    name (mkCategory "wedding_days" (JStr "Wedding Days") (Some ["w.jpg"])) = name src /\
    images (mkCategory "wedding_days" (JStr "Wedding Days") (Some ["w.jpg"])) = images src /\
    title (mkCategory "wedding_days" (JStr "Wedding Days") (Some ["w.jpg"])) =
      match CATEGORY_TITLES (name src) with
      | undefined =>
          if truthy (title src) then title src else JStr (humanize (name src))
      | found => found
      end /\
    (identifier (name src) = true ->
     humanize (name src) = humanize_by_words (name src)).
Proof.
  apply (resolved_title
           (Some [mkCategory "wedding_days" (JStr "") (Some ["w.jpg"])])).
  vm_compute. apply list_elem_of_here.
Defined.

(** C2 fails as stated: a category of the lookup table that brings its own
    title is shown under the title of the table. *)
Lemma explicit_title_overridden :
  prioritizeCategories
    (Some [mkCategory "landscapes" (JStr "Scenery") (Some ["l.jpg"])])
  = [mkCategory "landscapes" (JStr "Landscape") (Some ["l.jpg"])]
  /\ JStr "Landscape" <> JStr "Scenery".
Proof. split; [by vm_compute | done]. Qed.

(** C3, as the code has it: when a category with images bears a name of the
    priority list, the resolved list holds the names of the priority list
    that such categories bear, in the order of the priority list, and nothing
    else; otherwise it holds every category with images, in manifest order.
    Every resolved category stems from a category with images. *)
Theorem prioritizeCategories_order (all : option (list Category)) :
  let valid := List.filter has_images (default [] all) in
  let resolved := prioritizeCategories all in
  (forall c, c ∈ resolved -> exists src, src ∈ valid /\ c = with_title src) /\
  (Exists (fun c => name c ∈ CATEGORY_ORDER) valid ->
   name <$> resolved = filter (fun n => n ∈ name <$> valid) CATEGORY_ORDER) /\
  (Forall (fun c => name c ∉ CATEGORY_ORDER) valid ->
   resolved = with_title <$> valid).
Proof.
  intros valid resolved. split; [apply prioritizeCategories_sources|].
  pose proof (prioritized_names valid CATEGORY_ORDER) as Hnames.
  subst resolved. unfold prioritizeCategories. fold valid.
  destruct (with_title <$> omap _ CATEGORY_ORDER) as [|p ps] eqn:E.
  - apply fmap_nil_inv in E. rewrite E in Hnames. split; [|done].
    intros Hex. exfalso. apply Exists_exists in Hex as (c & Hc & Hord).
    assert (name c ∈ filter (fun n => n ∈ name <$> valid) CATEGORY_ORDER) as Hf.
    { apply list_elem_of_filter. split; [|done]. apply list_elem_of_fmap. eauto. }
    rewrite <- Hnames in Hf. by apply not_elem_of_nil in Hf.
  - rewrite <- E. split.
    + intros _. rewrite <- Hnames, <- list_fmap_compose. done.
    + intros Hall. exfalso.
      assert (name p ∈ name <$> omap
                (fun n => Map_of ((fun cat => (name cat, cat)) <$> valid) !! n)
                CATEGORY_ORDER) as Hp.
      { apply (f_equal (fmap name)) in E. rewrite <- list_fmap_compose in E.
        change (name ∘ with_title) with name in E. rewrite E. apply list_elem_of_here. }
      rewrite Hnames in Hp. apply list_elem_of_filter in Hp as [Hv Hord].
      apply list_elem_of_fmap in Hv as (c & Hn & Hc).
      rewrite Forall_forall in Hall. apply (Hall c Hc). by rewrite <- Hn.
Qed.

Lemma prioritizeCategories_order_witness :
  name <$> prioritizeCategories (Some
    [mkCategory "food" undefined (Some ["a.jpg"]);
     mkCategory "weddings" undefined (Some ["w.jpg"]);
     mkCategory "portraits" undefined (Some ["p.jpg"])])
  = ["portraits"; "food"]
  /\ prioritizeCategories (Some
       [mkCategory "weddings" undefined (Some ["w.jpg"]);
        mkCategory "pets" (JStr "Cats & Dogs") (Some ["c.jpg"])])
     = [mkCategory "weddings" (JStr "Weddings") (Some ["w.jpg"]);
        mkCategory "pets" (JStr "Cats & Dogs") (Some ["c.jpg"])].
Proof.
  split.
  - apply (prioritizeCategories_order (Some
      [mkCategory "food" undefined (Some ["a.jpg"]);
       mkCategory "weddings" undefined (Some ["w.jpg"]);
       mkCategory "portraits" undefined (Some ["p.jpg"])])).
    apply (bool_decide_unpack _). by vm_compute.
  - apply (prioritizeCategories_order (Some
      [mkCategory "weddings" undefined (Some ["w.jpg"]);
       mkCategory "pets" (JStr "Cats & Dogs") (Some ["c.jpg"])])).
    apply (bool_decide_unpack _). by vm_compute.
Defined.

(** C3 fails as stated: next to a prioritized category, a category with
    images whose name is not in the priority list is left out. *)
Lemma unprioritized_category_dropped :
  let all := [mkCategory "portraits" undefined (Some ["p.jpg"]);
              mkCategory "weddings" undefined (Some ["w.jpg"])] in
  List.filter has_images all = all /\
  name <$> prioritizeCategories (Some all) = ["portraits"] /\
  ~ prioritizeCategories (Some all) ≡ₚ with_title <$> all.
Proof.
  split; [done|]. split; [by vm_compute|].
  intros Hp. apply Permutation_length in Hp. vm_compute in Hp. discriminate.
Qed.

(** ** The tab and panel controller *)

Lemma getAttribute_setAttribute k v attrs :
  getAttribute k (setAttribute k v attrs) = Some v.
Proof.
  unfold getAttribute.
  induction attrs as [|[k' v'] r IH]; simpl.
  - by rewrite String.eqb_refl.
  - destruct (String.eqb k k') eqn:E; simpl; rewrite ?String.eqb_refl, ?E; done.
Qed.

Lemma Node_get_set_attribute k v n :
  is_element n = true ->
  Node_getAttribute k (Node_setAttribute k v n) = Some v.
Proof. destruct n; [intros _; apply getAttribute_setAttribute | done]. Qed.

Lemma Node_setAttribute_element k v n :
  is_element (Node_setAttribute k v n) = is_element n.
Proof. by destruct n. Qed.

Lemma js_index_of_nat {A} (l : list A) (i : nat) : js_index l (Z.of_nat i) = l !! i.
Proof.
  unfold js_index. rewrite Nat2Z.id.
  destruct (0 <=? Z.of_nat i)%Z eqn:E; [done | apply Z.leb_gt in E; lia].
Qed.

Lemma of_nat_eqb (j i : nat) : (Z.of_nat j =? Z.of_nat i)%Z = bool_decide (j = i).
Proof.
  case_bool_decide as H.
  - subst. apply Z.eqb_refl.
  - apply Z.eqb_neq. lia.
Qed.

Lemma enable_gallery_at_length index panels :
  length (enable_gallery_at index panels) = length panels.
Proof.
  unfold enable_gallery_at.
  destruct (js_index panels index); [|done].
  destruct (querySelector_gallery _); [|done].
  apply length_insert.
Qed.

(** [enableMasonry] touches the gallery inside the panel, never [hidden]. *)
Lemma enable_gallery_at_hidden index panels j :
  hidden <$> enable_gallery_at index panels !! j = hidden <$> panels !! j.
Proof.
  unfold enable_gallery_at, js_index.
  destruct (0 <=? index)%Z; [|done].
  destruct (panels !! Z.to_nat index) as [p|] eqn:E; [|done].
  destruct (querySelector_gallery p); [|done].
  destruct (decide (j = Z.to_nat index)) as [->|Hne].
  - rewrite list_lookup_insert_eq by (by eapply lookup_lt_Some). by rewrite E.
  - by rewrite list_lookup_insert_ne.
Qed.

Lemma activate_elements_tabs v index ts :
  tabEls (activate_elements v index ts) = imap (select_tab index) (tabEls ts).
Proof. done. Qed.

Lemma activate_elements_cats v index ts :
  cats (activate_elements v index ts) = cats ts.
Proof. done. Qed.

Lemma activate_elements_panels_length v index ts :
  length (panelEls (activate_elements v index ts)) = length (panelEls ts).
Proof.
  destruct v; simpl; rewrite ?enable_gallery_at_length; apply length_imap.
Qed.

Lemma activate_elements_hidden v index ts j :
  hidden <$> panelEls (activate_elements v index ts) !! j
  = (fun _ => negb (Z.of_nat j =? index)%Z) <$> panelEls ts !! j.
Proof.
  destruct v; simpl; rewrite ?enable_gallery_at_hidden, list_lookup_imap;
    by destruct (panelEls ts !! j).
Qed.

Lemma activate_elements_rendered v index ts :
  rendered ts -> rendered (activate_elements v index ts).
Proof.
  intros [Ht Hp Hb]. split.
  - simpl. by rewrite length_imap.
  - by rewrite activate_elements_panels_length.
  - rewrite activate_elements_tabs. apply Forall_forall. intros t Ht'.
    apply elem_of_lookup_imap in Ht' as (j & t0 & -> & Hj).
    simpl. rewrite Node_setAttribute_element.
    rewrite Forall_forall in Hb. apply Hb. by eapply list_elem_of_lookup_2.
Qed.

Lemma activate_valid v k i setHash w ts :
  tabsets w !! k = Some ts ->
  i < length (tabEls ts) -> i < length (cats ts) ->
  activate v k (Z.of_nat i) setHash w = (Normal tt, activated v k i setHash ts w).
Proof.
  intros Hk Hi Hc. unfold activate, activated, bind, get, modify, ret.
  rewrite Hk. simpl.
  rewrite !js_index_of_nat, Nat2Z.id.
  destruct (lookup_lt_is_Some_2 (cats ts) i Hc) as [cat Hcat].
  assert (is_Some (imap (select_tab (Z.of_nat i)) (tabEls ts) !! i)) as [t Ht].
  { apply lookup_lt_is_Some_2. by rewrite length_imap. }
  rewrite Hcat, Ht. by destruct setHash.
Qed.

Lemma activated_tabset v k i setHash ts w :
  tabsets w !! k = Some ts ->
  tabsets (activated v k i setHash ts w) !! k
  = Some (activate_elements v (Z.of_nat i) ts).
Proof.
  intros Hk. unfold activated.
  assert (k < length (tabsets w)) by (by eapply lookup_lt_Some).
  destruct setHash; [destruct (cats ts !! i)|]; simpl;
    unfold write_hash; try destruct (replaceState_throws _); simpl;
    by apply list_lookup_insert_eq.
Qed.

(** The elements after [activate(i, _)], position by position. *)
Lemma activate_elements_selects (v : Variant) (i : nat) (ts : TabSet) :
  rendered ts ->
  forall j, j < length (tabEls ts) ->
    exists t p,
      tabEls (activate_elements v (Z.of_nat i) ts) !! j = Some t /\
      panelEls (activate_elements v (Z.of_nat i) ts) !! j = Some p /\
      aria_selected t = Some (if bool_decide (j = i) then "true" else "false") /\
      tabIndex t = (if bool_decide (j = i) then 0 else -1)%Z /\
      hidden p = negb (bool_decide (j = i)).
Proof.
  intros [Ht Hp Hb] j Hj.
  destruct (lookup_lt_is_Some_2 (tabEls ts) j Hj) as [t0 Ht0].
  destruct (lookup_lt_is_Some_2 (panelEls ts) j ltac:(lia)) as [p0 Hp0].
  pose proof (activate_elements_hidden v (Z.of_nat i) ts j) as Hh.
  rewrite Hp0 in Hh.
  destruct (panelEls (activate_elements v (Z.of_nat i) ts) !! j) as [p|] eqn:Ep;
    simpl in Hh; [|discriminate Hh].
  injection Hh as Hh.
  exists (select_tab (Z.of_nat i) j t0), p.
  split; [rewrite activate_elements_tabs, list_lookup_imap; by rewrite Ht0|].
  split; [done|].
  rewrite Forall_forall in Hb.
  assert (is_element (tab_node t0) = true) as He
    by (apply Hb; by eapply list_elem_of_lookup_2).
  unfold aria_selected, select_tab; simpl.
  rewrite Node_get_set_attribute by done.
  rewrite Hh, of_nat_eqb. by case_bool_decide.
Qed.

(** C1: after [activate(i, _)] with a valid index, every position [j] of the
    tab set holds a tab whose [aria-selected] is ["true"] exactly when
    [j = i] and whose [tabIndex] is [0] exactly when [j = i] ([-1]
    otherwise), and a panel that is hidden exactly when [j <> i]. *)
Theorem activate_selects (v : Variant) (k i : nat) (setHash : bool)
    (w : World) (ts : TabSet) :
  tabsets w !! k = Some ts -> rendered ts -> i < length (tabEls ts) ->
  exists w' ts',
    activate v k (Z.of_nat i) setHash w = (Normal tt, w') /\
    tabsets w' !! k = Some ts' /\
    length (tabEls ts') = length (tabEls ts) /\
    length (panelEls ts') = length (tabEls ts) /\
    forall j, j < length (tabEls ts) ->
      exists t p,
        tabEls ts' !! j = Some t /\ panelEls ts' !! j = Some p /\
        aria_selected t = Some (if bool_decide (j = i) then "true" else "false") /\
        tabIndex t = (if bool_decide (j = i) then 0 else -1)%Z /\
        hidden p = negb (bool_decide (j = i)).
Proof.
  intros Hk Hr Hi. pose proof Hr as [Ht Hp Hb].
  exists (activated v k i setHash ts w), (activate_elements v (Z.of_nat i) ts).
  split; [apply activate_valid; [done | done | lia]|].
  split; [by apply activated_tabset|].
  split; [simpl; apply length_imap|].
  split; [rewrite activate_elements_panels_length; lia|].
  by apply activate_elements_selects.
Qed.

Lemma activate_selects_witness :
  exists w' ts',
    activate WithMasonry 0 (Z.of_nat 1) true (sample_page WithMasonry "") = (Normal tt, w') /\
    tabsets w' !! 0 = Some ts' /\
    length (tabEls ts') = length (tabEls (sample_tabset WithMasonry "")) /\
    length (panelEls ts') = length (tabEls (sample_tabset WithMasonry "")) /\
    forall j, j < length (tabEls (sample_tabset WithMasonry "")) ->
      exists t p,
        tabEls ts' !! j = Some t /\ panelEls ts' !! j = Some p /\
        aria_selected t = Some (if bool_decide (j = 1) then "true" else "false") /\
        tabIndex t = (if bool_decide (j = 1%nat) then 0 else -1)%Z /\
        hidden p = negb (bool_decide (j = 1)).
Proof.
  apply (activate_selects WithMasonry 0 1 true (sample_page WithMasonry "")
           (sample_tabset WithMasonry "")).
  - reflexivity.
  - split; vm_compute; [reflexivity | reflexivity | repeat constructor].
  - vm_compute. lia.
Defined.

(** ** Keyboard *)

Lemma key_target_spec (i len : nat) :
  i < len ->
  key_target "ArrowRight" i len = Some (Z.of_nat ((i + 1) mod len)) /\
  key_target "ArrowLeft" i len = Some (Z.of_nat ((i + len - 1) mod len)) /\
  key_target "Home" i len = Some 0%Z /\
  key_target "End" i len = Some (Z.of_nat (len - 1)).
Proof.
  intros Hi. unfold key_target; simpl. repeat split; f_equal.
  - rewrite Z.rem_mod_nonneg by lia. rewrite Nat2Z.inj_mod. f_equal. lia.
  - rewrite Z.rem_mod_nonneg by lia. rewrite Nat2Z.inj_mod. f_equal. lia.
  - lia.
Qed.

(** C6: on a tab set of [N] tabs, a keydown on tab [i] calls
    [preventDefault] and activates tab [(i+1) mod N] for ArrowRight,
    [(i-1+N) mod N] for ArrowLeft, [0] for Home and [N-1] for End; from the
    last tab ArrowRight leads to the first, from the first tab ArrowLeft leads
    to the last.  Each of these activations completes, and after it the tab
    the key leads to is the one selected tab ([aria-selected] is ["true"] and
    [tabIndex] is [0] there and nowhere else), its panel is the one panel
    shown, and the focus is on that tab. *)
Theorem keydown_moves (v : Variant) (k i : nat) (w : World) (ts : TabSet) :
  tabsets w !! k = Some ts -> rendered ts -> i < length (tabEls ts) ->
  let N := length (tabEls ts) in
  keydown v k i "ArrowRight" w
    = (true, activate v k (Z.of_nat ((i + 1) mod N)) true w) /\
  keydown v k i "ArrowLeft" w
    = (true, activate v k (Z.of_nat ((i + N - 1) mod N)) true w) /\
  keydown v k i "Home" w = (true, activate v k (Z.of_nat 0) true w) /\
  keydown v k i "End" w = (true, activate v k (Z.of_nat (N - 1)) true w) /\
  (i = N - 1 -> (i + 1) mod N = 0) /\
  (i = 0 -> (i + N - 1) mod N = N - 1) /\
  ((i + 1) mod N < N /\ (i + N - 1) mod N < N /\ 0 < N /\ N - 1 < N) /\
  forall target, target < N ->
    exists w' ts',
      activate v k (Z.of_nat target) true w = (Normal tt, w') /\
      tabsets w' !! k = Some ts' /\
      length (tabEls ts') = N /\ length (panelEls ts') = N /\
      activeElement w' = Some (k, target) /\
      forall j, j < N ->
        exists t p,
          tabEls ts' !! j = Some t /\ panelEls ts' !! j = Some p /\
          aria_selected t = Some (if bool_decide (j = target) then "true" else "false") /\
          tabIndex t = (if bool_decide (j = target) then 0 else -1)%Z /\
          hidden p = negb (bool_decide (j = target)).
Proof.
  intros Hk Hr Hi N. pose proof Hr as [Ht Hp Hb].
  destruct (key_target_spec i N Hi) as (HR & HL & HH & HE).
  unfold keydown. rewrite Hk. fold N. rewrite HR, HL, HH, HE.
  split; [done|]. split; [done|]. split; [done|]. split; [done|].
  split; [intros ->; replace (N - 1 + 1) with N by lia; apply Nat.Div0.mod_same|].
  split; [intros ->; apply Nat.mod_small; lia|].
  split.
  { repeat split; try lia; apply Nat.mod_upper_bound; lia. }
  intros target Htg.
  exists (activated v k target true ts w), (activate_elements v (Z.of_nat target) ts).
  split; [apply activate_valid; [done | done | lia]|].
  split; [by apply activated_tabset|].
  split; [simpl; apply length_imap|].
  split; [rewrite activate_elements_panels_length; lia|].
  split; [done|].
  by apply activate_elements_selects.
Qed.

Lemma keydown_moves_witness :
  let N := length (tabEls (sample_tabset Plain "#food")) in
  let w := sample_page Plain "#food" in
  keydown Plain 0 2 "ArrowRight" w
    = (true, activate Plain 0 (Z.of_nat ((2 + 1) mod N)) true w) /\
  keydown Plain 0 2 "ArrowLeft" w
    = (true, activate Plain 0 (Z.of_nat ((2 + N - 1) mod N)) true w) /\
  keydown Plain 0 2 "Home" w = (true, activate Plain 0 (Z.of_nat 0) true w) /\
  keydown Plain 0 2 "End" w = (true, activate Plain 0 (Z.of_nat (N - 1)) true w) /\
  (2 = N - 1 -> (2 + 1) mod N = 0) /\
  (2 = 0 -> (2 + N - 1) mod N = N - 1) /\
  ((2 + 1) mod N < N /\ (2 + N - 1) mod N < N /\ 0 < N /\ N - 1 < N) /\
  forall target, target < N ->
    exists w' ts',
      activate Plain 0 (Z.of_nat target) true w = (Normal tt, w') /\
      tabsets w' !! 0 = Some ts' /\
      length (tabEls ts') = N /\ length (panelEls ts') = N /\
      activeElement w' = Some (0, target) /\
      forall j, j < N ->
        exists t p,
          tabEls ts' !! j = Some t /\ panelEls ts' !! j = Some p /\
          aria_selected t = Some (if bool_decide (j = target) then "true" else "false") /\
          tabIndex t = (if bool_decide (j = target) then 0 else -1)%Z /\
          hidden p = negb (bool_decide (j = target)).
Proof.
  apply (keydown_moves Plain 0 2 (sample_page Plain "#food")
           (sample_tabset Plain "#food")).
  - reflexivity.
  - split; vm_compute; [reflexivity | reflexivity | repeat constructor].
  - vm_compute. lia.
Defined.

Example keydown_end_selects :
  let w' := snd (snd (keydown Plain 0 0 "End" (sample_page Plain ""))) in
  (fun ts => aria_selected <$> tabEls ts) <$> tabsets w' !! 0
  = Some [Some "false"; Some "false"; Some "true"] /\
  (fun ts => hidden <$> panelEls ts) <$> tabsets w' !! 0 = Some [true; true; false] /\
  activeElement w' = Some (0, 2).
Proof. vm_compute. done. Qed.

Example keydown_wraps_to_first :
  (fun ts => tabIndex <$> tabEls ts) <$> tabsets
    (snd (snd (keydown Plain 0 2 "ArrowRight" (sample_page Plain "#portraits")))) !! 0
  = Some [0; -1; -1]%Z.
Proof. vm_compute. reflexivity. Qed.

Example keydown_other_key :
  keydown Plain 0 2 "Enter" (sample_page Plain "")
  = (false, (Normal tt, sample_page Plain "")).
Proof. vm_compute. reflexivity. Qed.

(** ** Mount roots and the manifest loader *)

Lemma lookup_root_append rootId c d kids :
  lookup_root rootId d = Some kids ->
  lookup_root rootId (append_to rootId c d) = Some (kids ++ [c]).
Proof.
  unfold lookup_root.
  induction d as [|[id ks] d IH]; simpl; [done|].
  destruct (String.eqb id rootId) eqn:E; simpl; rewrite E.
  - by intros [= ->].
  - apply IH.
Qed.

Lemma lookup_root_append_other rootId rootId' c d :
  rootId' <> rootId ->
  lookup_root rootId' (append_to rootId c d) = lookup_root rootId' d.
Proof.
  intros Hne. unfold lookup_root.
  induction d as [|[id ks] d IH]; simpl; [done|].
  destruct (String.eqb id rootId) eqn:E; simpl.
  - apply String.eqb_eq in E as ->.
    by rewrite (proj2 (String.eqb_neq rootId rootId')).
  - destruct (String.eqb id rootId'); [done | apply IH].
Qed.

Lemma append_to_missing rootId c d :
  lookup_root rootId d = None -> append_to rootId c d = d.
Proof.
  unfold lookup_root.
  induction d as [|[id ks] d IH]; simpl; [done|].
  destruct (String.eqb id rootId); [done|].
  intros H. by rewrite IH.
Qed.

(** The loader leaves the page alone but for the log of requests. *)
Lemma loadManifest_page w :
  let w' := snd (loadManifest w) in
  document w' = document w /\ tabsets w' = tabsets w /\
  location_protocol w' = location_protocol w /\
  location_hash w' = location_hash w /\
  history_length w' = history_length w /\
  hashchange_listeners w' = hashchange_listeners w /\
  activeElement w' = activeElement w.
Proof.
  unfold loadManifest, bind, get, modify, throw, ret; simpl.
  destruct (String.eqb (location_protocol w) "file:"); [done|].
  destruct (network w) as [|[] [m|]]; done.
Qed.

Lemma loadManifest_file w :
  location_protocol w = "file:" ->
  loadManifest w
  = (Throw (Error "Local file protocol blocks fetch; run a local server."), w).
Proof. intros H. unfold loadManifest, bind, get, throw; simpl. by rewrite H. Qed.

Lemma loadManifest_ok w m :
  location_protocol w <> "file:" -> network w = Response true (Some m) ->
  loadManifest w = (Normal m, log_fetch MANIFEST_URL w).
Proof.
  intros Hp Hn. unfold loadManifest, bind, get, modify, ret; simpl.
  apply String.eqb_neq in Hp. by rewrite Hp, Hn.
Qed.

Lemma status_message_text msg :
  status_message msg = Static (Elem "p" "muted" (Some msg) [] []).
Proof. done. Qed.

(** ** Rendering the portfolio *)

Lemma filter_has_images_nil (l : list Category) :
  (forall c, c ∈ l -> has_images c = false) -> List.filter has_images l = [].
Proof.
  induction l as [|c l IH]; intros H; simpl; [done|].
  rewrite (H c) by apply list_elem_of_here.
  apply IH. intros c' Hc'. apply H. by apply list_elem_of_further.
Qed.

Lemma resolve_categories_nil v m :
  (forall c, c ∈ default [] (categories m) -> has_images c = false) ->
  resolve_categories v m = [].
Proof.
  intros H. apply filter_has_images_nil in H.
  destruct v; simpl; [|done].
  unfold prioritizeCategories. by rewrite H.
Qed.

(** C5: when the manifest loads and none of its categories has an image,
    [renderPortfolio] appends the one message "No images found." to the root
    and builds no tab set: no tab, no panel, no listener. *)
Theorem renderPortfolio_no_images (v : Variant) (rootId : string) (w : World)
    (kids : list Child) (m : Manifest) :
  getElementById rootId w = Some kids ->
  location_protocol w <> "file:" ->
  network w = Response true (Some m) ->
  (forall c, c ∈ default [] (categories m) -> images c = Some [] \/ images c = None) ->
  exists w',
    renderPortfolio v rootId w = (Normal tt, w') /\
    getElementById rootId w'
    = Some (kids ++ [Static (Elem "p" "muted" (Some "No images found.") [] [])]) /\
    (forall other, other <> rootId -> getElementById other w' = getElementById other w) /\
    tabsets w' = tabsets w /\
    hashchange_listeners w' = hashchange_listeners w.
Proof.
  intros Hroot Hp Hn Hempty.
  assert (resolve_categories v m = []) as Hcs.
  { apply resolve_categories_nil. intros c Hc. unfold has_images.
    by destruct (Hempty c Hc) as [-> | ->]. }
  unfold renderPortfolio, bind, get, try_catch; simpl.
  rewrite Hroot, (loadManifest_ok w m Hp Hn), Hcs.
  eexists. split; [reflexivity|].
  unfold getElementById; simpl.
  split; [by apply lookup_root_append|].
  split; [|done]. intros other Hne. by apply lookup_root_append_other.
Qed.

Lemma renderPortfolio_no_images_witness :
  exists w',
    renderPortfolio WithMasonry "portfolio" (fresh_page "" empty_manifest)
    = (Normal tt, w') /\
    getElementById "portfolio" w'
    = Some ([Static (TextNode "Portfolio")] ++
            [Static (Elem "p" "muted" (Some "No images found.") [] [])]) /\
    (forall other, other <> "portfolio" ->
       getElementById other w' = getElementById other (fresh_page "" empty_manifest)) /\
    tabsets w' = tabsets (fresh_page "" empty_manifest) /\
    hashchange_listeners w' = hashchange_listeners (fresh_page "" empty_manifest).
Proof.
  apply (renderPortfolio_no_images WithMasonry "portfolio"
           (fresh_page "" empty_manifest) [Static (TextNode "Portfolio")]
           empty_manifest).
  - reflexivity.
  - discriminate.
  - reflexivity.
  - intros c Hc. simpl in Hc.
    apply elem_of_cons in Hc as [-> | Hc]; [by left|].
    apply list_elem_of_singleton in Hc as ->. by left.
Defined.

(** C10: without an element of the given id, both entry points return at
    once: no exception, no request for the manifest, the page as it was. *)
Theorem render_without_root (v : Variant) (rootId : string) (count : option Z)
    (w : World) :
  getElementById rootId w = None ->
  renderPortfolio v rootId w = (Normal tt, w) /\
  renderFeatured v rootId count w = (Normal tt, w).
Proof.
  intros H. unfold renderPortfolio, renderFeatured, bind, get, ret; simpl.
  by rewrite H.
Qed.

Lemma render_without_root_witness :
  renderPortfolio Plain "gallery" (fresh_page "" sample_manifest)
  = (Normal tt, fresh_page "" sample_manifest) /\
  renderFeatured Plain "gallery" (Some 3%Z) (fresh_page "" sample_manifest)
  = (Normal tt, fresh_page "" sample_manifest).
Proof.
  apply (render_without_root Plain "gallery" (Some 3%Z) (fresh_page "" sample_manifest)).
  reflexivity.
Defined.

(** ** Initial selection and the fragment *)

Lemma remove_first_hash_fragment frag :
  remove_first_hash (hash_of_fragment frag) = frag.
Proof.
  unfold hash_of_fragment.
  destruct (String.eqb frag "") eqn:E; [|done].
  by apply String.eqb_eq in E as ->.
Qed.

Lemma findIndex_spec (wanted : string) (l : list Category) :
  (exists i c,
     findIndex wanted l = Z.of_nat i /\ l !! i = Some c /\ name c = wanted /\
     forall j c', l !! j = Some c' -> j < i -> name c' <> wanted)
  \/ (findIndex wanted l = (-1)%Z /\ forall c, c ∈ l -> name c <> wanted).
Proof.
  unfold findIndex.
  destruct (list_find (fun c => name c = wanted) l) as [[i c]|] eqn:E.
  - left. apply list_find_Some in E as (Hi & Hc & Hfirst). exists i, c. eauto.
  - right. apply list_find_None in E. rewrite Forall_forall in E. eauto.
Qed.

Lemma make_tabset_rendered v m (cs : list Category) :
  rendered (mkTabSet cs (make_tab <$> cs) (make_panel v m <$> cs)).
Proof.
  split; simpl.
  - apply length_fmap.
  - apply length_fmap.
  - apply Forall_fmap, Forall_forall. by intros c _.
Qed.

Lemma renderPortfolio_renders v rootId w kids m :
  getElementById rootId w = Some kids ->
  location_protocol w <> "file:" ->
  network w = Response true (Some m) ->
  resolve_categories v m <> [] ->
  let cs := resolve_categories v m in
  let idx := Z.max 0 (findIndex (remove_first_hash (location_hash w)) cs) in
  (0 <= idx < Z.of_nat (length cs))%Z /\
  renderPortfolio v rootId w
  = (Normal tt, portfolio_rendered v rootId m (Z.to_nat idx) w).
Proof.
  intros Hroot Hp Hn Hcs cs idx.
  assert (0 <= idx < Z.of_nat (length cs))%Z as Hidx.
  { subst idx cs.
    destruct (findIndex_spec (remove_first_hash (location_hash w))
                (resolve_categories v m)) as [(i & c & -> & Hi & _)|[-> _]].
    - apply lookup_lt_Some in Hi. lia.
    - destruct (resolve_categories v m); [done | simpl; lia]. }
  split; [done|].
  assert (forall (a b : M unit),
            match cs with [] => a | _ :: _ => b end = b) as Hm
    by (intros a b; subst cs; destruct (resolve_categories v m); done).
  unfold renderPortfolio, bind at 1, get at 1; simpl.
  rewrite Hroot. unfold try_catch, bind at 1.
  rewrite (loadManifest_ok w m Hp Hn). fold cs. rewrite Hm.
  unfold bind, get, modify, root_appendChild; simpl.
  fold idx. rewrite <- (Z2Nat.id idx) at 1 by lia.
  erewrite activate_valid.
  - reflexivity.
  - simpl. by apply list_lookup_middle.
  - simpl. rewrite length_fmap. unfold idx, cs in *. lia.
  - simpl. unfold idx, cs in *. lia.
Qed.

Lemma on_hashchange_unmatched v k w ts frag :
  tabsets w !! k = Some ts ->
  location_hash w = hash_of_fragment frag ->
  (forall c, c ∈ cats ts -> name c <> frag) ->
  on_hashchange v k w = (Normal tt, w).
Proof.
  intros Hk Hh Hnone. unfold on_hashchange, bind, get; simpl.
  rewrite Hk, Hh, remove_first_hash_fragment.
  destruct (findIndex_spec frag (cats ts)) as [(i & c & _ & Hi & Hc & _)|[-> _]].
  - exfalso. apply (Hnone c); [by eapply list_elem_of_lookup_2 | done].
  - done.
Qed.

(** C7: with the manifest loaded and at least one category to render,
    [renderPortfolio] activates the first category whose name is the fragment
    of the URL, or index 0 when no category bears that name; the tab and the
    panel at that index are the selected and the visible ones, the hash and
    the history are as before, and a later [hashchange] whose fragment names
    no rendered category changes nothing. *)
Theorem initial_activation (v : Variant) (rootId : string) (w : World)
    (kids : list Child) (m : Manifest) (frag : string) :
  getElementById rootId w = Some kids ->
  location_protocol w <> "file:" ->
  network w = Response true (Some m) ->
  resolve_categories v m <> [] ->
  location_hash w = hash_of_fragment frag ->
  let cs := resolve_categories v m in
  let k := length (tabsets w) in
  exists w' ts' i,
    renderPortfolio v rootId w = (Normal tt, w') /\
    tabsets w' !! k = Some ts' /\ cats ts' = cs /\ rendered ts' /\
    ((exists c, cs !! i = Some c /\ name c = frag /\
                forall j c', cs !! j = Some c' -> j < i -> name c' <> frag)
     \/ ((forall c, c ∈ cs -> name c <> frag) /\ i = 0)) /\
    (forall j, j < length cs ->
       exists t p,
         tabEls ts' !! j = Some t /\ panelEls ts' !! j = Some p /\
         aria_selected t = Some (if bool_decide (j = i) then "true" else "false") /\
         tabIndex t = (if bool_decide (j = i) then 0 else -1)%Z /\
         hidden p = negb (bool_decide (j = i))) /\
    activeElement w' = Some (k, i) /\
    location_hash w' = location_hash w /\
    history_length w' = history_length w /\
    hashchange_listeners w' = hashchange_listeners w ++ [k] /\
    forall w2 ts2 frag2,
      tabsets w2 !! k = Some ts2 ->
      location_hash w2 = hash_of_fragment frag2 ->
      (forall c, c ∈ cats ts2 -> name c <> frag2) ->
      on_hashchange v k w2 = (Normal tt, w2).
Proof.
  intros Hroot Hp Hn Hcs Hh cs k.
  destruct (renderPortfolio_renders v rootId w kids m Hroot Hp Hn Hcs)
    as [Hidx Hrender].
  rewrite Hh, remove_first_hash_fragment in Hidx, Hrender. fold cs in Hidx, Hrender.
  set (i := Z.to_nat (Z.max 0 (findIndex frag cs))) in *.
  set (ts0 := mkTabSet cs (make_tab <$> cs) (make_panel v m <$> cs)).
  exists (portfolio_rendered v rootId m i w), (activate_elements v (Z.of_nat i) ts0), i.
  split; [done|].
  split.
  { unfold portfolio_rendered; simpl. apply list_lookup_insert_eq.
    rewrite length_app; simpl. lia. }
  split; [done|].
  split; [apply activate_elements_rendered, make_tabset_rendered|].
  split.
  { destruct (findIndex_spec frag cs) as [(j & c & Hj & Hc & Hname & Hfirst)|[Hj Hnone]].
    - left. exists c. subst i. rewrite Hj.
      replace (Z.to_nat (Z.max 0 (Z.of_nat j))) with j by lia. eauto.
    - right. split; [done|]. subst i. rewrite Hj. done. }
  split.
  { intros j Hj.
    apply (activate_elements_selects v i ts0 (make_tabset_rendered v m cs) j).
    simpl. by rewrite length_fmap. }
  repeat split; try done.
  intros w2 ts2 frag2. apply on_hashchange_unmatched.
Qed.

Lemma initial_activation_witness :
  let w := fresh_page "#street-life" sample_manifest in
  let cs := resolve_categories Plain sample_manifest in
  exists w' ts' i,
    renderPortfolio Plain "portfolio" w = (Normal tt, w') /\
    tabsets w' !! 0 = Some ts' /\ cats ts' = cs /\ rendered ts' /\
    ((exists c, cs !! i = Some c /\ name c = "street-life" /\
                forall j c', cs !! j = Some c' -> j < i -> name c' <> "street-life")
     \/ ((forall c, c ∈ cs -> name c <> "street-life") /\ i = 0)) /\
    (forall j, j < length cs ->
       exists t p,
         tabEls ts' !! j = Some t /\ panelEls ts' !! j = Some p /\
         aria_selected t = Some (if bool_decide (j = i) then "true" else "false") /\
         tabIndex t = (if bool_decide (j = i) then 0 else -1)%Z /\
         hidden p = negb (bool_decide (j = i))) /\
    activeElement w' = Some (0, i) /\
    location_hash w' = location_hash w /\
    history_length w' = history_length w /\
    hashchange_listeners w' = hashchange_listeners w ++ [0] /\
    forall w2 ts2 frag2,
      tabsets w2 !! 0 = Some ts2 ->
      location_hash w2 = hash_of_fragment frag2 ->
      (forall c, c ∈ cats ts2 -> name c <> frag2) ->
      on_hashchange Plain 0 w2 = (Normal tt, w2).
Proof.
  apply (initial_activation Plain "portfolio"
           (fresh_page "#street-life" sample_manifest)
           [Static (TextNode "Portfolio")] sample_manifest "street-life").
  - reflexivity.
  - discriminate.
  - reflexivity.
  - vm_compute. discriminate.
  - reflexivity.
Defined.

Example initial_activation_by_fragment :
  activeElement
    (snd (renderPortfolio Plain "portfolio" (fresh_page "#street-life" sample_manifest)))
  = Some (0, 1).
Proof. reflexivity. Qed.

Example initial_activation_default :
  activeElement
    (snd (renderPortfolio WithMasonry "portfolio" (fresh_page "#weddings" sample_manifest)))
  = Some (0, 0).
Proof. reflexivity. Qed.

(** ** The featured strip *)

Lemma figureFor_src v src alt : img_src (figureFor v src alt) = Some src.
Proof. by destruct v. Qed.

Lemma forEach_appendChild {A} (f : A -> Child) rootId (l : list A) : forall w,
  forEach (fun x => root_appendChild rootId (f x)) l w
  = (Normal tt,
     set_document (foldl (fun d x => append_to rootId (f x) d) (document w) l) w).
Proof.
  induction l as [|x l IH]; intros w; simpl.
  - by destruct w.
  - unfold bind, root_appendChild, modify. by rewrite IH.
Qed.

Lemma lookup_root_foldl_append {A} (f : A -> Child) rootId (l : list A) : forall d kids,
  lookup_root rootId d = Some kids ->
  lookup_root rootId (foldl (fun d x => append_to rootId (f x) d) d l)
  = Some (kids ++ (f <$> l)).
Proof.
  induction l as [|x l IH]; intros d kids H; simpl.
  - by rewrite app_nil_r.
  - rewrite (IH _ (kids ++ [f x])) by (by apply lookup_root_append).
    by rewrite <- app_assoc.
Qed.

Lemma slice0_nonneg {A} (l : list A) (count : Z) :
  (0 <= count)%Z ->
  slice0 l count = take (Z.to_nat (Z.min count (Z.of_nat (length l)))) l.
Proof.
  intros H. unfold slice0.
  destruct (count <? 0)%Z eqn:E; [apply Z.ltb_lt in E; lia | done].
Qed.

Lemma flatten_length m cs :
  length (flatten m cs) = sum_list ((fun cat => length (images_or_empty cat)) <$> cs).
Proof.
  unfold flatten. induction cs as [|c cs IH]; [done|].
  by rewrite bind_cons, fmap_cons, length_app, length_fmap, IH.
Qed.

(** C8: with the manifest loaded, [renderFeatured(rootId, count)] appends to
    the root one figure per entry of the first [min(count, total)] entries of
    the flattened image list ([count] being 6 when left out), in the order of
    that list, which runs through the categories in manifest order and
    through each category's images in their order; the image of each figure
    has the source [basePath/categoryName/filename]. *)
Theorem renderFeatured_takes (v : Variant) (rootId : string) (count : option Z)
    (w : World) (kids : list Child) (m : Manifest) (cs : list Category) :
  getElementById rootId w = Some kids ->
  location_protocol w <> "file:" ->
  network w = Response true (Some m) ->
  categories m = Some cs ->
  (0 <= default 6 count)%Z ->
  let flat := cs ≫= (fun cat =>
                (fun file => (basePath m +:+ "/" +:+ name cat +:+ "/" +:+ file,
                              alt_text cat)) <$> default [] (images cat)) in
  let total := sum_list ((fun cat => length (default [] (images cat))) <$> cs) in
  let taken := take (Z.to_nat (Z.min (default 6%Z count) (Z.of_nat total))) flat in
  exists w',
    renderFeatured v rootId count w = (Normal tt, w') /\
    getElementById rootId w'
    = Some (kids ++ ((fun it => Static (figureFor v it.1 it.2)) <$> taken)) /\
    length flat = total /\
    length taken = Z.to_nat (Z.min (default 6%Z count) (Z.of_nat total)) /\
    (forall it, it ∈ taken -> img_src (figureFor v it.1 it.2) = Some it.1) /\
    tabsets w' = tabsets w.
Proof.
  intros Hroot Hp Hn Hcs Hcount flat total taken.
  assert (length flat = total) as Hlen by apply flatten_length.
  unfold renderFeatured, bind at 1, get at 1; simpl.
  rewrite Hroot. unfold try_catch, bind at 1.
  rewrite (loadManifest_ok w m Hp Hn), Hcs.
  change (flatten m cs) with flat.
  rewrite slice0_nonneg, Hlen by done. fold taken.
  rewrite (forEach_appendChild (fun it => Static (figureFor v it.1 it.2))).
  eexists. split; [reflexivity|].
  split.
  { unfold getElementById; simpl. by apply lookup_root_foldl_append. }
  split; [done|].
  split.
  { subst taken. rewrite length_take. lia. }
  split; [|done].
  intros it _. apply figureFor_src.
Qed.

Lemma renderFeatured_takes_witness :
  exists w',
    renderFeatured Plain "featured" (Some 3%Z) (fresh_page "" five_images)
    = (Normal tt, w') /\
    getElementById "featured" w'
    = Some ([] ++ [Static (figureFor Plain "img/food/a.jpg" "Food — Elle Phoenix");
                   Static (figureFor Plain "img/food/b.jpg" "Food — Elle Phoenix");
                   Static (figureFor Plain "img/street-life/s.jpg"
                             "Street Life — Elle Phoenix")]) /\
    length (flatten five_images (default [] (categories five_images))) = 5 /\
    length (take 3 (flatten five_images (default [] (categories five_images)))) = 3 /\
    (forall it,
       it ∈ [("img/food/a.jpg", "Food — Elle Phoenix");
             ("img/food/b.jpg", "Food — Elle Phoenix");
             ("img/street-life/s.jpg", "Street Life — Elle Phoenix")] ->
       img_src (figureFor Plain it.1 it.2) = Some it.1) /\
    tabsets w' = [].
Proof.
  apply (renderFeatured_takes Plain "featured" (Some 3%Z) (fresh_page "" five_images) []
           five_images
           [mkCategory "food" undefined (Some ["a.jpg"; "b.jpg"]);
            mkCategory "empty" undefined None;
            mkCategory "street-life" undefined (Some ["s.jpg"]);
            mkCategory "portraits" (JStr "People") (Some ["p.jpg"; "q.jpg"])]).
  - reflexivity.
  - discriminate.
  - reflexivity.
  - reflexivity.
  - simpl. lia.
Defined.

Example renderFeatured_default_count :
  length <$> getElementById "featured"
    (snd (renderFeatured WithMasonry "featured" None (fresh_page "" five_images)))
  = Some 5.
Proof. reflexivity. Qed.

Example slice0_negative : slice0 ["a"; "b"; "c"] (-1) = ["a"; "b"].
Proof. reflexivity. Qed.

(** ** Failure messages *)




(** A manifest without a [categories] list is a failure of the featured
    strip only. *)
Example failure_after_load :
  let w := fresh_page "" (mkManifest "img" None) in
  getElementById "featured" (snd (renderFeatured Plain "featured" None w))
  = Some [status_message "No featured images found."] /\
  getElementById "featured" (snd (renderPortfolio Plain "featured" w))
  = Some [status_message "No images found."].
Proof. vm_compute. done. Qed.

(** A manifest without images is no failure: the featured strip stays as it
    is, the portfolio says that there are no images. *)
Example no_failure_without_images :
  let w := fresh_page "" empty_manifest in
  getElementById "featured" (snd (renderFeatured Plain "featured" None w)) = Some [] /\
  getElementById "featured" (snd (renderPortfolio Plain "featured" w))
  = Some [status_message "No images found."].
Proof. vm_compute. done. Qed.


(** ** Masonry spans *)

Example Math_ceil_fraction : Math_ceil (110 / 18)%float = 7%float.
Proof. reflexivity. Qed.

Example Math_ceil_integer : Math_ceil 3%float = 3%float.
Proof. reflexivity. Qed.

Example Math_ceil_negative : Math_ceil (-1.5)%float = (-1)%float.
Proof. reflexivity. Qed.

Example row_span_small : row_span 0%float 12%float = 1%float.
Proof. reflexivity. Qed.

Lemma layoutMasonry_length parseFloat L g :
  length (g_children (layoutMasonry parseFloat L g)) = length (g_children g).
Proof.
  unfold layoutMasonry.
  destruct (negb (isConnected L)); [done|].
  destruct (Nat.eqb (clientRects L) 0); [done|].
  apply length_imap.
Qed.

(** *** The doubles of the span *)

Lemma SFltb_asym a b : SFltb a b = true -> SFltb b a = false.
Proof.
  unfold SFltb, SFcompare.
  destruct a as [sa|sa| |sa ma ea], b as [sb|sb| |sb mb eb];
    try reflexivity; try discriminate;
    try (destruct sa; try reflexivity; try discriminate;
         destruct sb; try reflexivity; discriminate);
    try (destruct sb; try reflexivity; discriminate).
  change (PosDef.Pos.compare_cont Eq mb ma) with (Pos.compare mb ma).
  change (PosDef.Pos.compare_cont Eq ma mb) with (Pos.compare ma mb).
  rewrite (Z.compare_antisym ea eb), (Pos.compare_antisym ma mb).
  destruct sa, sb; try reflexivity; try discriminate;
    destruct (ea ?= eb)%Z; cbn [CompOpp]; try reflexivity; try discriminate;
    destruct (ma ?= mb)%positive; cbn [CompOpp]; try reflexivity; discriminate.
Qed.

Lemma digits2_pos_iter (p d : positive) :
  digits2_pos (Pos.iter xO p d) = (digits2_pos p + d)%positive.
Proof.
  induction d as [|d IH] using Pos.peano_ind.
  - cbn. lia.
  - rewrite Pos.iter_succ. cbn [digits2_pos]. rewrite IH. lia.
Qed.

Lemma digits2_pos_bounds (p : positive) :
  (2 ^ (Z.pos (digits2_pos p) - 1) <= Z.pos p < 2 ^ Z.pos (digits2_pos p))%Z.
Proof.
  induction p as [p IH|p IH|]; cbn [digits2_pos].
  - rewrite Pos2Z.inj_succ.
    replace (Z.succ (Z.pos (digits2_pos p)) - 1)%Z with (Z.succ (Z.pos (digits2_pos p) - 1))%Z by lia.
    rewrite !Z.pow_succ_r by lia. lia.
  - rewrite Pos2Z.inj_succ.
    replace (Z.succ (Z.pos (digits2_pos p)) - 1)%Z with (Z.succ (Z.pos (digits2_pos p) - 1))%Z by lia.
    rewrite !Z.pow_succ_r by lia. lia.
  - cbn. lia.
Qed.

Lemma digits2_pos_le (p : positive) (n : Z) :
  (0 <= n)%Z -> (Z.pos p < 2 ^ n)%Z -> (Z.pos (digits2_pos p) <= n)%Z.
Proof.
  intros Hn H. destruct (digits2_pos_bounds p) as [Hlo _].
  destruct (Z_le_gt_dec (Z.pos (digits2_pos p)) n) as [|Hgt]; [done|].
  assert (2 ^ n <= 2 ^ (Z.pos (digits2_pos p) - 1))%Z by (apply Z.pow_le_mono_r; lia).
  lia.
Qed.

(** The double that [of_uint63] makes of a positive integer below [2^53]. *)
Lemma binary_normalize_pos (p : positive) :
  (Z.pos p < 2 ^ 53)%Z ->
  exists mz ez,
    binary_normalize prec emax (Z.pos p) 0 false = S754_finite false mz ez /\
    ez = (Z.pos (digits2_pos p) - 53)%Z /\
    (Z.pos mz = Z.pos p * 2 ^ (- ez))%Z.
Proof.
  intros Hp.
  pose proof (digits2_pos_le p 53 ltac:(lia) Hp) as HD.
  set (D := digits2_pos p) in *.
  assert (exists mz, shl_align p 0 (fexp prec emax (Z.pos D + 0)) = (mz, (Z.pos D - 53)%Z)
                     /\ digits2_pos mz = 53%positive
                     /\ (Z.pos mz = Z.pos p * 2 ^ (53 - Z.pos D))%Z) as (mz & Hal & Hdig & Hval).
  { unfold shl_align, fexp, SpecFloat.emin, prec, emax.
    replace (IntDef.Z.max (Z.pos D + 0 - 53) (3 - 1024 - 53))%Z with (Z.pos D - 53)%Z
      by (change IntDef.Z.max with Z.max; lia).
    destruct (Z.pos D - 53 - 0)%Z as [|d|d] eqn:Ed; [|lia|].
    - exists p. replace (Z.pos D - 53)%Z with 0%Z by lia.
      split; [done|]. split; [fold D; lia|]. replace (53 - Z.pos D)%Z with 0%Z by lia. lia.
    - exists (Pos.iter xO p d). split; [done|]. split.
      + rewrite digits2_pos_iter. fold D. lia.
      + change (Pos.iter xO p d) with (shift_pos d p). rewrite shift_pos_correct.
        rewrite Z.pow_pos_fold. replace (53 - Z.pos D)%Z with (Z.pos d) by lia. lia. }
  exists mz, (Z.pos D - 53)%Z.
  split; [|split; [done | rewrite Hval; f_equal; f_equal; lia]].
  unfold binary_normalize, binary_round. fold D. rewrite Hal.
  unfold binary_round_aux.
  assert (forall m, Z.pos (digits2_pos m) = 53%Z ->
            shr_fexp prec emax (Z.pos m) (Z.pos D - 53) loc_Exact
            = ({| shr_m := Z.pos m; shr_r := false; shr_s := false |}, (Z.pos D - 53)%Z)) as Hshr.
  { intros m Hm. unfold shr_fexp, Zdigits2, fexp, SpecFloat.emin, prec, emax. rewrite Hm.
    replace (IntDef.Z.max (53 + (Z.pos D - 53) - 53) (3 - 1024 - 53) - (Z.pos D - 53))%Z
      with 0%Z by (change IntDef.Z.max with Z.max; lia).
    done. }
  rewrite Hshr by (rewrite Hdig; done).
  cbn [shr_m loc_of_shr_record round_nearest_even].
  rewrite Hshr by (rewrite Hdig; done).
  cbn [shr_m].
  unfold emax, prec.
  destruct (Z.pos D - 53 <=? 1024 - 53)%Z eqn:E; [done|].
  apply Z.leb_gt in E. lia.
Qed.

Lemma Prim2SF_one : Prim2SF 1 = S754_finite false 4503599627370496 (-52).
Proof. vm_compute. reflexivity. Qed.

Lemma is_nan_finite (c : float) :
  match Prim2SF c with S754_nan => False | _ => True end -> PrimFloat.is_nan c = false.
Proof.
  intros H. unfold PrimFloat.is_nan. rewrite FloatAxioms.eqb_spec.
  unfold SFeqb, SFcompare.
  destruct (Prim2SF c) as [s|s| |s m e]; try done; try (by destruct s).
  rewrite Z.compare_refl.
  change (PosDef.Pos.compare_cont Eq m m) with (Pos.compare m m).
  rewrite Pos.compare_refl. by destruct s.
Qed.

Lemma Math_max_one_cases (c : float) :
  PrimFloat.is_nan c = false ->
  (Math_max 1 c = c /\ (1 <? c)%float = true) \/
  (Math_max 1 c = 1%float /\ (1 <? c)%float = false).
Proof.
  intros Hc. unfold Math_max. rewrite Hc.
  change (PrimFloat.is_nan 1) with false. cbn [orb].
  destruct (1 <? c)%float; [by left|]. right. split; [|done].
  destruct (c <? 1)%float; [done|].
  change (PrimFloat.get_sign 1) with false. done.
Qed.

(** Against the double 1: a zero and a negative double are below it. *)
Lemma Math_max_one_small (c : float) :
  match Prim2SF c with
  | S754_zero _ | S754_finite true _ _ => True
  | _ => False
  end -> Math_max 1 c = 1%float.
Proof.
  intros H.
  destruct (Math_max_one_cases c) as [[_ Hlt]|[Hm _]]; [|exfalso|done].
  - apply is_nan_finite. by destruct (Prim2SF c) as [| | |[]].
  - rewrite FloatAxioms.ltb_spec, Prim2SF_one in Hlt. unfold SFltb, SFcompare in Hlt.
    destruct (Prim2SF c) as [s|s| |[] m e]; done.
Qed.

Lemma Math_max_one_large (c : float) m e :
  Prim2SF c = S754_finite false m e -> (-52 < e)%Z -> Math_max 1 c = c.
Proof.
  intros Hc He.
  destruct (Math_max_one_cases c) as [[Hm _]|[_ Hlt]]; [|done|exfalso].
  - apply is_nan_finite. by rewrite Hc.
  - rewrite FloatAxioms.ltb_spec, Prim2SF_one, Hc in Hlt. unfold SFltb, SFcompare in Hlt.
    destruct (Z.compare_spec (-52) e); [lia | done | lia].
Qed.

Lemma digits2_pos_one (p : positive) : digits2_pos p = 1%positive -> p = 1%positive.
Proof. destruct p as [p|p|]; cbn [digits2_pos]; [lia | lia | done]. Qed.

(** The double of a positive integer below [2^53], its exponent, and the
    integer that it stands for. *)
Lemma of_uint63_pos (p : positive) :
  (Z.pos p < 2 ^ 53)%Z ->
  exists mz ez,
    Prim2SF (PrimFloat.of_uint63 (Uint63.of_Z (Z.pos p))) = S754_finite false mz ez /\
    (-52 <= ez <= 0)%Z /\
    (Z.pos mz = Z.pos p * 2 ^ (- ez))%Z /\
    (ez = (-52)%Z -> p = 1%positive).
Proof.
  intros Hp. rewrite of_uint63_spec, Uint63.of_Z_spec.
  rewrite Z.mod_small by (change Uint63Axioms.wB with (2 ^ 63)%Z; lia).
  destruct (binary_normalize_pos p Hp) as (mz & ez & -> & Hez & Hval).
  pose proof (digits2_pos_le p 53 ltac:(lia) Hp).
  exists mz, ez. split; [done|]. split; [lia|]. split; [done|].
  intros He. apply digits2_pos_one. lia.
Qed.

Lemma of_uint63_zero :
  Prim2SF (PrimFloat.of_uint63 (Uint63.of_Z 0)) = S754_zero false.
Proof. vm_compute. reflexivity. Qed.

(** The value of a double with a non-positive exponent. *)
Lemma SF2Q_integer (s : bool) (mz : positive) (ez k : Z) :
  (ez <= 0)%Z -> (Z.pos mz = k * 2 ^ (- ez))%Z ->
  exists v, SF2Q (S754_finite s mz ez) = Some v /\
            (v == inject_Z (if s then - k else k))%Q.
Proof.
  intros He Hval. eexists. split; [reflexivity|].
  destruct ez as [|p|p]; [|lia|].
  - change (2 ^ (- 0))%Z with 1%Z in Hval. destruct s.
    + replace (Z.neg mz) with (- k)%Z by lia. reflexivity.
    + rewrite Hval. by rewrite Z.mul_1_r.
  - change (- Z.neg p)%Z with (Z.pos p) in Hval.
    unfold Qeq, inject_Z; cbn [Qnum Qden]. rewrite Pos2Z.inj_pow.
    destruct s; [|lia].
    change (Z.neg mz) with (- Z.pos mz)%Z. lia.
Qed.

Lemma ceil_div (m d : Z) :
  (0 < d)%Z ->
  (- ((- m) / d) = if (m mod d =? 0)%Z then m / d else m / d + 1)%Z.
Proof.
  intros Hd. destruct (m mod d =? 0)%Z eqn:E.
  - apply Z.eqb_eq in E. rewrite Z.div_opp_l_z by lia. lia.
  - apply Z.eqb_neq in E. rewrite Z.div_opp_l_nz by lia. lia.
Qed.

(** The span as a number: whatever finite double the quotient [q] is, the
    span is the double that stands for [max(1, ceil q)], both taken exactly. *)
Lemma span_of_quotient (q : float) (v : Q) :
  float_value q = Some v ->
  exists vn, float_value (Math_max 1 (Math_ceil q)) = Some vn /\
             (vn == inject_Z (Z.max 1 (Qceiling v)))%Q.
Proof.
  unfold float_value. intros Hv.
  pose proof (Prim2SF_valid q) as Hvalid.
  assert (SF2Q (Prim2SF 1) = Some (4503599627370496 # 4503599627370496)%Q) as Hone
    by (rewrite Prim2SF_one; reflexivity).
  assert (forall z, (z <= 1)%Z ->
            exists vn, SF2Q (Prim2SF 1) = Some vn /\ (vn == inject_Z (Z.max 1 z))%Q) as Hres1.
  { intros z Hz. eexists. split; [exact Hone|].
    replace (Z.max 1 z) with 1%Z by lia. reflexivity. }
  unfold Math_ceil.
  destruct (Prim2SF q) as [s|s| |s m e] eqn:Eq; try discriminate.
  - (* zero *)
    injection Hv as <-.
    rewrite (Math_max_one_small q) by (by rewrite Eq).
    apply Hres1. change (Qceiling 0) with 0%Z. lia.
  - (* finite *)
    unfold valid_binary, SpecFloat.valid_binary, bounded, canonical_mantissa, fexp,
      SpecFloat.emin, prec, emax in Hvalid.
    change IntDef.Z.max with Z.max in Hvalid.
    apply andb_prop in Hvalid as [Hcan _]. apply Z.eqb_eq in Hcan.
    assert (Z.pos m < 2 ^ 53)%Z as Hm.
    { destruct (digits2_pos_bounds m) as [_ Hhi].
      assert (2 ^ Z.pos (digits2_pos m) <= 2 ^ 53)%Z by (apply Z.pow_le_mono_r; lia).
      lia. }
    destruct (0 <=? e)%Z eqn:Ee.
    + (* an integer already *)
      apply Z.leb_le in Ee.
      assert (exists z, (v == inject_Z z)%Q /\ (if s then z < 0 else 0 < z)%Z) as (z & Hz & Hsign).
      { cbn [SF2Q] in Hv. injection Hv as <-.
        destruct e as [|p|p]; [| |lia]; eexists; (split; [reflexivity|]); destruct s; lia. }
      rewrite (Qceiling_comp _ _ Hz), Qceiling_Z.
      destruct s.
      * rewrite (Math_max_one_small q) by (by rewrite Eq). apply Hres1. lia.
      * rewrite (Math_max_one_large q m e Eq) by lia. rewrite Eq.
        exists v. split; [done|]. rewrite Hz. replace (Z.max 1 z) with z by lia. reflexivity.
    + (* a fraction *)
      apply Z.leb_gt in Ee. destruct e as [|p|p]; [lia | lia |].
      cbn [SF2Q] in Hv. injection Hv as <-.
      change (- Z.neg p)%Z with (Z.pos p).
      set (d := (2 ^ Z.pos p)%Z).
      assert (1 < d)%Z as Hd.
      { subst d. change 1%Z with (2 ^ 0)%Z. apply Z.pow_lt_mono_r; lia. }
      destruct s.
      * (* negative: the ceiling is [- (m / d)] *)
        assert (Qceiling (Z.neg m # 2 ^ p) <= 0)%Z as Hceil.
        { unfold Qceiling, Qfloor, Qopp; cbn [Qnum Qden]. rewrite Pos2Z.inj_pow. fold d.
          change (- Z.neg m)%Z with (Z.pos m).
          pose proof (Z.div_pos (Z.pos m) d ltac:(lia) ltac:(lia)). lia. }
        rewrite Math_max_one_small; [apply Hres1; lia|].
        rewrite FloatAxioms.opp_spec.
        destruct (Z.pos m / d)%Z as [|k|k] eqn:Ek.
        -- by rewrite of_uint63_zero.
        -- assert (Z.pos k < 2 ^ 53)%Z as Hk.
           { pose proof (Z.div_le_upper_bound (Z.pos m) d (Z.pos m) ltac:(lia) ltac:(nia)).
             lia. }
           destruct (of_uint63_pos k Hk) as (mz & ez & -> & _). done.
        -- pose proof (Z.div_pos (Z.pos m) d ltac:(lia) ltac:(lia)). lia.
      * (* positive: the ceiling is at least one *)
        assert (Qceiling (Z.pos m # 2 ^ p)
                = if (Z.pos m mod d =? 0)%Z then Z.pos m / d else Z.pos m / d + 1)%Z as Hceil.
        { unfold Qceiling, Qfloor, Qopp; cbn [Qnum Qden]. rewrite Pos2Z.inj_pow. fold d.
          apply ceil_div. lia. }
        rewrite Hceil.
        set (k0 := (if (Z.pos m mod d =? 0)%Z then Z.pos m / d else Z.pos m / d + 1)%Z).
        assert (1 <= k0 <= Z.pos m)%Z as Hk0.
        { subst k0. pose proof (Z.div_mod (Z.pos m) d ltac:(lia)) as Hdm.
          pose proof (Z.mod_pos_bound (Z.pos m) d ltac:(lia)) as Hmod.
          pose proof (Z.div_pos (Z.pos m) d ltac:(lia) ltac:(lia)) as Hq.
          destruct (Z.pos m mod d =? 0)%Z eqn:E.
          - apply Z.eqb_eq in E. nia.
          - apply Z.eqb_neq in E. nia. }
        destruct k0 as [|k|k] eqn:Ek; [lia| |lia].
        destruct (of_uint63_pos k ltac:(lia)) as (mz & ez & Hc & Hez & Hval & Hone').
        destruct (Z.eq_dec ez (-52)%Z) as [He52|He52].
        -- (* the double 1 itself *)
           rewrite (Hone' He52).
           change (Math_max 1 (PrimFloat.of_uint63 (Uint63.of_Z 1))) with 1%float.
           apply Hres1. lia.
        -- rewrite (Math_max_one_large _ mz ez Hc) by lia. rewrite Hc.
           destruct (SF2Q_integer false mz ez (Z.pos k) ltac:(lia) Hval) as (vn & Hvn & Hq).
           exists vn. split; [done|]. rewrite Hq.
           replace (Z.max 1 (Z.pos k)) with (Z.pos k) by lia. reflexivity.
Qed.

Lemma Math_max_one_not_below (c : float) : (Math_max 1 c <? 1)%float = false.
Proof.
  unfold Math_max.
  change (PrimFloat.is_nan 1) with false. cbn [orb].
  destruct (PrimFloat.is_nan c); [reflexivity|].
  destruct (1 <? c)%float eqn:E1.
  - rewrite FloatAxioms.ltb_spec in E1 |- *. exact (SFltb_asym _ _ E1).
  - destruct (c <? 1)%float; reflexivity.
Qed.

(** C9, as the code has it: on a gallery that is attached and has layout
    boxes, every child that is a gallery item gets the row span
    [max(1, ceil(q))], where [q] is the quotient [(h + g) / (8 + g)] of the
    measured height [h] of the child and the row gap [g] of the gallery as
    double arithmetic gives it (each sum and the quotient rounded to a
    double).  The ceiling and the maximum are exact: the span is never below
    one, and whenever [q] is a finite double, the span is the double that
    stands for the integer [max(1, ceil q)].  The other children keep their
    style.  On a gallery that is detached or has no layout box, nothing
    changes. *)
Theorem layoutMasonry_spans (parseFloat : string -> float) (L : Layout)
    (gallery : GalleryEl) :
  MASONRY_ROW_HEIGHT = 8%float /\
  (isConnected L = true -> clientRects L <> 0 ->
   forall k it, g_children gallery !! k = Some it ->
     let q := ((rect_height L k + row_gap parseFloat L)
               / (8 + row_gap parseFloat L))%float in
     exists n,
       g_children (layoutMasonry parseFloat L gallery) !! k
       = Some (if is_gallery_item it then mkItem (item_node it) (Some n) else it) /\
       n = Math_max 1 (Math_ceil q) /\
       (n <? 1)%float = false /\
       forall v, float_value q = Some v ->
         exists vn, float_value n = Some vn /\
                    (vn == inject_Z (Z.max 1 (Qceiling v)))%Q) /\
  (isConnected L = false \/ clientRects L = 0 ->
   layoutMasonry parseFloat L gallery = gallery).
Proof.
  split; [done|]. split.
  - intros Hc Hr k it Hk q. exists (Math_max 1 (Math_ceil q)).
    split; [|split; [done|split]].
    + unfold layoutMasonry.
      rewrite Hc; simpl.
      destruct (Nat.eqb (clientRects L) 0) eqn:E; [by apply Nat.eqb_eq in E|].
      simpl. rewrite list_lookup_imap, Hk. done.
    + apply Math_max_one_not_below.
    + apply span_of_quotient.
  - intros [Hc | Hr]; unfold layoutMasonry.
    + by rewrite Hc.
    + rewrite Hr. by destruct (negb (isConnected L)).
Qed.

Lemma layoutMasonry_spans_witness :
  (exists n,
     g_children (layoutMasonry sample_parseFloat (sample_layout true) sample_gallery) !! 0
     = Some (mkItem (figureFor WithMasonry "img/food/a.jpg" "Food — Elle Phoenix")
               (Some n)) /\
     n = 7%float /\
     (n <? 1)%float = false /\
     exists vn, float_value n = Some vn /\ (vn == inject_Z 7)%Q)
  /\ layoutMasonry sample_parseFloat (sample_layout false) sample_gallery
     = sample_gallery.
Proof.
  pose proof (layoutMasonry_spans sample_parseFloat (sample_layout true) sample_gallery)
    as (_ & Hspan & _).
  pose proof (layoutMasonry_spans sample_parseFloat (sample_layout false) sample_gallery)
    as (_ & _ & Hskip).
  split.
  - destruct (Hspan eq_refl ltac:(simpl; lia) 0
                (mkItem (figureFor WithMasonry "img/food/a.jpg" "Food — Elle Phoenix") None)
                eq_refl) as (n & Hn & Hdef & Hlow & Hval).
    exists n. split; [exact Hn|]. split; [rewrite Hdef; vm_compute; reflexivity|].
    split; [exact Hlow|].
    apply (Hval (6880499430704924 # 1125899906842624)%Q).
    vm_compute. reflexivity.
  - apply Hskip. left. reflexivity.
Defined.

(** C9 fails as stated, over the numbers: for an item 64 pixels high in a
    gallery with a row gap of [3.2px] the formula gives
    [ceil(67.2 / 11.2) = 6], whether the gap is taken as 3.2 or as the double
    next to it, but the quotient of the two rounded sums is the double just
    above 6, and the item gets [span 7]. *)
Lemma span_above_exact_quotient :
  gridRowEnd <$> g_children (layoutMasonry gap_parseFloat gap_layout gap_gallery)
  = [Some 7%float] /\
  (exists h g,
     float_value (rect_height gap_layout 0) = Some h /\
     float_value (row_gap gap_parseFloat gap_layout) = Some g /\
     (h == 64)%Q /\ (g == 3602879701896397 # 1125899906842624)%Q /\
     exact_span h g = 6%Z) /\
  exact_span 64 (32 # 10) = 6%Z.
Proof.
  split; [vm_compute; reflexivity|]. split; [|vm_compute; reflexivity].
  eexists _, _. split; [vm_compute; reflexivity|]. split; [vm_compute; reflexivity|].
  split; [vm_compute; reflexivity|]. split; vm_compute; reflexivity.
Qed.

Example row_span_clamped : row_span 0%float 0%float = 1%float.
Proof. vm_compute. reflexivity. Qed.

Example Math_ceil_zero : Math_ceil (0 / 8)%float = 0%float.
Proof. vm_compute. reflexivity. Qed.

Example layoutMasonry_sample :
  gridRowEnd <$> g_children
    (layoutMasonry sample_parseFloat (sample_layout true) sample_gallery)
  = [Some 7%float; None; Some 1%float].
Proof. reflexivity. Qed.

(** * Further properties of the script *)

(** ** [humanize] *)

Lemma toUpperCase_separator c : is_separator (toUpperCase c) = is_separator c.
Proof. by destruct c as [[] [] [] [] [] [] [] []]. Qed.

Lemma toUpperCase_word c : is_word (toUpperCase c) = is_word c.
Proof. by destruct c as [[] [] [] [] [] [] [] []]. Qed.

Lemma toUpperCase_idemp c : toUpperCase (toUpperCase c) = toUpperCase c.
Proof. by destruct c as [[] [] [] [] [] [] [] []]. Qed.

Lemma replace_separators_free in_run s :
  separator_free (replace_separators in_run s) = true.
Proof.
  revert in_run. induction s as [|c r IH]; intros in_run; [done|].
  cbn [replace_separators]. destruct (is_separator c) eqn:E.
  - destruct in_run; [apply IH|]. cbn. apply IH.
  - cbn. rewrite E. apply IH.
Qed.

Lemma replace_separators_id in_run s :
  separator_free s = true -> replace_separators in_run s = s.
Proof.
  revert in_run. induction s as [|c r IH]; intros in_run H; [done|].
  cbn in H. apply andb_prop in H as [Hc Hr]. apply negb_true_iff in Hc.
  cbn [replace_separators]. rewrite Hc. f_equal. by apply IH.
Qed.

Lemma capitalize_words_free after s :
  separator_free (capitalize_words after s) = separator_free s.
Proof.
  revert after. induction s as [|c r IH]; intros after; [done|].
  cbn [capitalize_words]. destruct (is_word c).
  - cbn. rewrite IH. destruct after; by rewrite ?toUpperCase_separator.
  - cbn. by rewrite IH.
Qed.

Lemma capitalize_words_idemp after s :
  capitalize_words after (capitalize_words after s) = capitalize_words after s.
Proof.
  revert after. induction s as [|c r IH]; intros after; [done|].
  cbn [capitalize_words]. destruct (is_word c) eqn:E.
  - destruct after; cbn [capitalize_words];
      rewrite ?toUpperCase_word, E, ?toUpperCase_idemp, IH; done.
  - cbn [capitalize_words]. by rewrite E, IH.
Qed.

Lemma replace_separators_length in_run s :
  String.length (replace_separators in_run s) <= String.length s.
Proof.
  revert in_run. induction s as [|c r IH]; intros in_run; [done|].
  cbn [replace_separators]. destruct (is_separator c).
  - destruct in_run; cbn; [specialize (IH true) | specialize (IH true)]; lia.
  - cbn. specialize (IH false). lia.
Qed.

Lemma capitalize_words_length after s :
  String.length (capitalize_words after s) = String.length s.
Proof.
  revert after. induction s as [|c r IH]; intros after; [done|].
  cbn [capitalize_words]. destruct (is_word c); cbn; by rewrite IH.
Qed.

(** X1: the humanized name holds no hyphen and no underscore, is never
    longer than the name, and humanizing it again changes nothing. *)
Theorem humanize_normal_form (name : string) :
  separator_free (humanize name) = true /\
  String.length (humanize name) <= String.length name /\
  humanize (humanize name) = humanize name.
Proof.
  unfold humanize. split; [|split].
  - by rewrite capitalize_words_free, replace_separators_free.
  - rewrite capitalize_words_length. apply replace_separators_length.
  - rewrite (replace_separators_id false (capitalize_words _ _)).
    + apply capitalize_words_idemp.
    + by rewrite capitalize_words_free, replace_separators_free.
Qed.

(** ** [withExtension] *)

Lemma split_last_dot_None s : dot_free s = true -> split_last_dot s = None.
Proof.
  induction s as [|c r IH]; [done|].
  cbn. intros H. apply andb_prop in H as [Hc Hr]. apply negb_true_iff in Hc.
  unfold is_dot in Hc. by rewrite (IH Hr), Hc.
Qed.

Lemma split_last_dot_app base e :
  dot_free e = true -> split_last_dot (base +:+ "." +:+ e) = Some (base, e).
Proof.
  intros He. induction base as [|c b IH].
  - change ("" +:+ "." +:+ e) with (String "." e).
    cbn [split_last_dot]. by rewrite (split_last_dot_None e He).
  - change (String c b +:+ "." +:+ e) with (String c (b +:+ "." +:+ e)).
    cbn [split_last_dot]. by rewrite IH.
Qed.

Lemma split_last_dot_None_inv s : split_last_dot s = None -> dot_free s = true.
Proof.
  induction s as [|c r IH]; [done|].
  cbn [split_last_dot]. destruct (split_last_dot r) as [[p q]|]; [done|].
  destruct (Ascii.eqb c ".") eqn:Ec; [done|].
  intros _. unfold dot_free. cbn [string_forall]. unfold is_dot at 1.
  rewrite Ec. by apply IH.
Qed.

Lemma split_last_dot_Some s : forall pre suf,
  split_last_dot s = Some (pre, suf) ->
  s = pre +:+ "." +:+ suf /\ dot_free suf = true.
Proof.
  induction s as [|c r IH]; intros pre suf; [done|].
  cbn [split_last_dot]. destruct (split_last_dot r) as [[p q]|] eqn:E.
  - intros [= <- <-]. destruct (IH p q eq_refl) as [-> Hq]. done.
  - destruct (Ascii.eqb c ".") eqn:Ec; [|done].
    intros [= <- <-]. apply Ascii.eqb_eq in Ec as ->.
    split; [done | by apply split_last_dot_None_inv].
Qed.

Lemma GetSubstitution_dollar_free matched before after ext :
  dollar_free ext = true -> GetSubstitution matched before after ext = ext.
Proof.
  induction ext as [|c tl IH]; [done|].
  unfold dollar_free. cbn [string_forall GetSubstitution].
  intros H. apply andb_prop in H as [Hc Htl]. apply negb_true_iff in Hc.
  rewrite Hc. f_equal. by apply IH.
Qed.

Lemma withExtension_app (base e ext : string) :
  dot_free e = true ->
  withExtension (base +:+ "." +:+ e) ext
  = (if String.eqb e "" then base +:+ "."
     else base +:+ GetSubstitution ("." +:+ e) base "" ext).
Proof.
  intros He. unfold withExtension. rewrite (split_last_dot_app base e He).
  destruct (String.eqb e "") eqn:E; [|done].
  apply String.eqb_eq in E as ->. done.
Qed.

(** X2: [withExtension] replaces what follows the last dot of the source,
    dot included, when something follows it: by the replacement text that
    [replace] makes of the extension, which is the extension itself when it
    holds no dollar sign (as [.avif] and [.webp]).  A source without a dot and
    a source that ends in a dot are returned as they are. *)
Theorem withExtension_last_dot (base e ext : string) :
  dot_free e = true ->
  withExtension (base +:+ "." +:+ e) ext
    = (if String.eqb e "" then base +:+ "."
       else base +:+ GetSubstitution ("." +:+ e) base "" ext) /\
  (dollar_free ext = true ->
   withExtension (base +:+ "." +:+ e) ext
   = (if String.eqb e "" then base +:+ "." else base +:+ ext)) /\
  withExtension e ext = e.
Proof.
  intros He. split; [by apply withExtension_app|]. split.
  - intros Hd. rewrite withExtension_app by done.
    by rewrite GetSubstitution_dollar_free.
  - unfold withExtension. by rewrite (split_last_dot_None e He).
Qed.

Lemma withExtension_last_dot_witness :
  withExtension ("img/v1.2/food/a" +:+ "." +:+ "jpeg") ".webp"
    = (if String.eqb "jpeg" "" then "img/v1.2/food/a" +:+ "."
       else "img/v1.2/food/a"
            +:+ GetSubstitution ("." +:+ "jpeg") "img/v1.2/food/a" "" ".webp") /\
  (dollar_free ".webp" = true ->
   withExtension ("img/v1.2/food/a" +:+ "." +:+ "jpeg") ".webp"
   = (if String.eqb "jpeg" "" then "img/v1.2/food/a" +:+ "."
      else "img/v1.2/food/a" +:+ ".webp")) /\
  withExtension "jpeg" ".webp" = "jpeg".
Proof. apply (withExtension_last_dot "img/v1.2/food/a" "jpeg" ".webp"). reflexivity. Defined.

(** A dollar sign in the extension is read as [replace] reads it. *)
Example withExtension_dollar :
  withExtension "a.jpg" "$$" = "a$" /\
  withExtension "a.jpg" "$&" = "a.jpg" /\
  withExtension "a.jpg" "$`" = "aa" /\
  withExtension "a.jpg" "$'" = "a" /\
  withExtension "a.jpg" "$1" = "a$1" /\
  withExtension "a.jpg" ".$" = "a.$".
Proof. repeat split. Qed.

(** X3: replacing the extension twice by the same extension is replacing it
    once, for an extension made of a dot and a non-empty text without dots
    and dollar signs (as [.avif] and [.webp] are). *)
Theorem withExtension_idempotent (src x : string) :
  dot_free x = true -> dollar_free x = true -> x <> "" ->
  withExtension (withExtension src ("." +:+ x)) ("." +:+ x)
  = withExtension src ("." +:+ x).
Proof.
  intros Hx Hd Hne.
  assert (String.eqb x "" = false) as Hx' by (by apply String.eqb_neq).
  assert (forall m b, GetSubstitution m b "" ("." +:+ x) = "." +:+ x) as Hsub.
  { intros m b. by apply GetSubstitution_dollar_free. }
  unfold withExtension at 2.
  destruct (split_last_dot src) as [[pre suf]|] eqn:E.
  - destruct (String.eqb suf "") eqn:Es.
    + unfold withExtension. by rewrite E, Es.
    + rewrite Hsub.
      pose proof (withExtension_app pre x ("." +:+ x) Hx) as H.
      rewrite Hx', Hsub in H. rewrite H. unfold withExtension. by rewrite E, Es, Hsub.
  - unfold withExtension. by rewrite E.
Qed.

Lemma withExtension_idempotent_witness :
  withExtension (withExtension "img/food/a.jpg" ("." +:+ "avif")) ("." +:+ "avif")
  = withExtension "img/food/a.jpg" ("." +:+ "avif").
Proof.
  apply (withExtension_idempotent "img/food/a.jpg" "avif");
    [reflexivity | reflexivity | discriminate].
Defined.

(** With a dollar sign the second replacement can differ from the first. *)
Example withExtension_not_idempotent :
  withExtension "img/food/a.jpg" ".$&" = "img/food/a..jpg" /\
  withExtension (withExtension "img/food/a.jpg" ".$&") ".$&" = "img/food/a...jpg".
Proof. repeat split. Qed.

(** ** [el] *)

Lemma assoc_setAttribute_ne k k' v attrs :
  k' <> k -> assoc k' (setAttribute k v attrs) = assoc k' attrs.
Proof.
  intros Hne. induction attrs as [|[k0 v0] r IH]; simpl.
  - by rewrite (proj2 (String.eqb_neq k' k)).
  - destruct (String.eqb k k0) eqn:E; simpl.
    + apply String.eqb_eq in E as <-.
      by rewrite (proj2 (String.eqb_neq k' k)).
    + destruct (String.eqb k' k0); [done | apply IH].
Qed.

Lemma assoc_None_keys k (l : list (string * string)) :
  k ∉ l.*1 -> assoc k l = None.
Proof.
  induction l as [|[k0 v0] r IH]; [done|].
  rewrite fmap_cons, not_elem_of_cons. intros [Hne Hr]. simpl.
  rewrite (proj2 (String.eqb_neq k k0)) by done. by apply IH.
Qed.

Lemma foldl_el_entry attrs : forall tag cls txt a kids,
  NoDup attrs.*1 -> "text" ∉ attrs.*1 ->
  exists a',
    foldl el_entry (Elem tag cls txt a kids) attrs
    = Elem tag (default cls (assoc "class" attrs)) txt a' kids /\
    assoc "class" a' = assoc "class" a /\
    forall k, k <> "class" ->
      assoc k a' = match assoc k attrs with
                   | Some v => Some v
                   | None => assoc k a
                   end.
Proof.
  induction attrs as [|[k0 v0] r IH]; intros tag cls txt a kids Hnd Htext.
  - exists a. done.
  - rewrite fmap_cons in Hnd, Htext. apply NoDup_cons in Hnd as [Hk0 Hnd].
    apply not_elem_of_cons in Htext as [Hk0t Htext]. simpl in Hk0, Hk0t.
    cbn [foldl el_entry].
    destruct (String.eqb k0 "class") eqn:Ec.
    + apply String.eqb_eq in Ec as ->.
      destruct (IH tag v0 txt a kids Hnd Htext) as (a' & -> & Hc & Ha').
      exists a'. rewrite (assoc_None_keys "class" r Hk0). split; [done|].
      split; [done|].
      intros k Hk. rewrite (Ha' k Hk).
      change (assoc k (("class", v0) :: r))
        with (if String.eqb k "class" then Some v0 else assoc k r).
      by rewrite (proj2 (String.eqb_neq k "class")).
    + rewrite (proj2 (String.eqb_neq k0 "text")) by done.
      destruct (IH tag cls txt (setAttribute k0 v0 a) kids Hnd Htext)
        as (a' & -> & Hc & Ha').
      apply String.eqb_neq in Ec.
      exists a'. split.
      { change (assoc "class" ((k0, v0) :: r))
          with (if String.eqb "class" k0 then Some v0 else assoc "class" r).
        by rewrite (proj2 (String.eqb_neq "class" k0)). }
      split.
      { rewrite Hc. by apply assoc_setAttribute_ne. }
      intros k Hk. rewrite (Ha' k Hk).
      change (assoc k ((k0, v0) :: r))
        with (if String.eqb k k0 then Some v0 else assoc k r).
      destruct (String.eqb k k0) eqn:E.
      * apply String.eqb_eq in E as ->.
        rewrite (assoc_None_keys k0 r Hk0). apply getAttribute_setAttribute.
      * apply String.eqb_neq in E. destruct (assoc k r); [done|].
        by apply assoc_setAttribute_ne.
Qed.

Lemma foldl_appendChild kids : forall tag cls txt a kids0,
  foldl appendChild (Elem tag cls txt a kids0) kids = Elem tag cls txt a (kids0 ++ kids).
Proof.
  induction kids as [|c r IH]; intros tag cls txt a kids0; simpl.
  - by rewrite app_nil_r.
  - rewrite IH. by rewrite <- app_assoc.
Qed.

(** X4: for a tag and attribute names that the DOM takes as they are
    ([html_name]), distinct and without a [text] key, [el] makes an element of
    the given tag whose class name is the value of the [class] key (empty
    without one), whose attributes other than [class] read back as given,
    absent when not given, and whose children are the given children in
    their order. *)
Theorem el_builds (tag : string) (attrs : list (string * string)) (kids : list Node) :
  html_name tag = true ->
  Forall (fun k => html_name k = true) attrs.*1 ->
  NoDup attrs.*1 -> "text" ∉ attrs.*1 ->
  Node_tag (el tag attrs kids) = Some tag /\
  Node_className (el tag attrs kids) = Some (default "" (assoc "class" attrs)) /\
  (forall k, html_name k = true -> k <> "class" ->
     Node_getAttribute k (el tag attrs kids) = assoc k attrs) /\
  Node_children (el tag attrs kids) = kids.
Proof.
  intros _ _ Hnd Htext. unfold el.
  destruct (foldl_el_entry attrs tag "" None [] [] Hnd Htext) as (a' & -> & Hc & Ha').
  rewrite foldl_appendChild. simpl. repeat split; try done.
  intros k _ Hk. unfold getAttribute. rewrite (Ha' k Hk). by destruct (assoc k attrs).
Qed.

Lemma el_builds_witness :
  let attrs := [("src", "img/food/a.jpg"); ("class", "thumb"); ("alt", "Food")] in
  Node_tag (el "img" attrs []) = Some "img" /\
  Node_className (el "img" attrs []) = Some (default "" (assoc "class" attrs)) /\
  (forall k, html_name k = true -> k <> "class" ->
     Node_getAttribute k (el "img" attrs []) = assoc k attrs) /\
  Node_children (el "img" attrs []) = [].
Proof.
  apply (el_builds "img" [("src", "img/food/a.jpg"); ("class", "thumb"); ("alt", "Food")] []).
  - reflexivity.
  - repeat constructor.
  - apply (bool_decide_unpack _). by vm_compute.
  - apply (bool_decide_unpack _). by vm_compute.
Defined.

(** ** More on the category resolver *)

Lemma prioritizeCategories_nil all :
  prioritizeCategories all = [] ->
  List.filter has_images (default [] all) = [].
Proof.
  unfold prioritizeCategories.
  destruct (with_title <$> omap _ CATEGORY_ORDER) as [|p ps]; [|done].
  apply fmap_nil_inv.
Qed.

(** X5: in both variants, every category that reaches the tab builder has at
    least one image and stems from a category of the manifest with the same
    name and images; the resolved list is empty exactly when no category of
    the manifest has an image. *)
Theorem resolved_have_images (v : Variant) (m : Manifest) :
  (forall c, c ∈ resolve_categories v m ->
     has_images c = true /\
     exists src, src ∈ default [] (categories m) /\
                 name c = name src /\ images c = images src) /\
  (resolve_categories v m = [] <->
   forall c, c ∈ default [] (categories m) -> has_images c = false).
Proof.
  split.
  - intros c Hc. destruct v; simpl in Hc.
    + apply prioritizeCategories_sources in Hc as (src & Hsrc & ->).
      apply filter_has_images in Hsrc as [Hin Himg]. split; [done|]. eauto.
    + apply filter_has_images in Hc as [Hin Himg]. split; [done|]. eauto.
  - split.
    + intros Hnil c Hc. destruct (has_images c) eqn:E; [|done]. exfalso.
      assert (c ∈ List.filter has_images (default [] (categories m))) as Hf
        by (by apply filter_has_images).
      destruct v; simpl in Hnil.
      * apply prioritizeCategories_nil in Hnil. rewrite Hnil in Hf.
        by apply not_elem_of_nil in Hf.
      * rewrite Hnil in Hf. by apply not_elem_of_nil in Hf.
    + apply resolve_categories_nil.
Qed.

Lemma resolved_have_images_witness :
  has_images (mkCategory "portraits" (JStr "Portraits") (Some ["p.jpg"])) = true /\
  exists src, src ∈ default [] (categories sample_manifest) /\
              name (mkCategory "portraits" (JStr "Portraits") (Some ["p.jpg"])) = name src /\
              images (mkCategory "portraits" (JStr "Portraits") (Some ["p.jpg"])) = images src.
Proof.
  apply (resolved_have_images WithMasonry sample_manifest).
  vm_compute. apply list_elem_of_here.
Defined.

Lemma foldl_insert_other (l : list (string * Category)) :
  forall (m : gmap string Category) (k : string),
  k ∉ l.*1 -> foldl (fun m kv => <[kv.1 := kv.2]> m) m l !! k = m !! k.
Proof.
  induction l as [|[k' c'] l IH]; intros m k Hk; [done|].
  rewrite fmap_cons in Hk. apply not_elem_of_cons in Hk as [Hne Hk].
  cbn [foldl]. rewrite IH by done. by apply lookup_insert_ne.
Qed.

Lemma Map_of_last (l1 l2 : list (string * Category)) k c :
  k ∉ l2.*1 -> Map_of (l1 ++ (k, c) :: l2) !! k = Some c.
Proof.
  intros Hk. unfold Map_of. rewrite foldl_app. cbn [foldl].
  rewrite foldl_insert_other by done. apply lookup_insert_eq.
Qed.

Lemma NoDup_CATEGORY_ORDER : NoDup CATEGORY_ORDER.
Proof. apply (bool_decide_unpack _). by vm_compute. Qed.

Lemma prioritized_nonempty (valid : list Category) c :
  c ∈ valid -> name c ∈ CATEGORY_ORDER ->
  omap (fun n => Map_of ((fun cat => (name cat, cat)) <$> valid) !! n) CATEGORY_ORDER
  <> [].
Proof.
  intros Hc Hord Hnil.
  pose proof (prioritized_names valid CATEGORY_ORDER) as Hn. rewrite Hnil in Hn.
  assert (name c ∈ filter (fun n => n ∈ name <$> valid) CATEGORY_ORDER) as Hf.
  { apply list_elem_of_filter. split; [|done]. apply list_elem_of_fmap. eauto. }
  rewrite <- Hn in Hf. by apply not_elem_of_nil in Hf.
Qed.

(** X6: in the masonry variant, when a category with images bears a name of
    the priority list, the names of the resolved categories are pairwise
    distinct even if the manifest repeats a name, and of the categories with
    images that share a prioritized name it is the last one of the manifest
    that is resolved. *)
Theorem prioritized_last_wins (all : list Category) (before after : list Category)
    (c : Category) :
  List.filter has_images all = before ++ c :: after ->
  name c ∈ CATEGORY_ORDER ->
  (forall c', c' ∈ after -> name c' <> name c) ->
  NoDup (name <$> prioritizeCategories (Some all)) /\
  with_title c ∈ prioritizeCategories (Some all) /\
  forall r, r ∈ prioritizeCategories (Some all) -> name r = name c -> r = with_title c.
Proof.
  intros Hvalid Hord Hafter.
  assert (c ∈ List.filter has_images all) as Hc.
  { rewrite Hvalid. apply elem_of_app. right. apply list_elem_of_here. }
  unfold prioritizeCategories. simpl default.
  set (valid := List.filter has_images all) in *.
  set (byName := Map_of ((fun cat => (name cat, cat)) <$> valid)).
  pose proof (prioritized_nonempty valid c Hc Hord) as Hne. fold byName in Hne.
  assert (byName !! name c = Some c) as Hlook.
  { subst byName. rewrite Hvalid, fmap_app, fmap_cons. apply Map_of_last.
    rewrite <- list_fmap_compose. intros Hin.
    apply list_elem_of_fmap in Hin as (c' & Hn & Hc'). by apply (Hafter c' Hc'). }
  destruct (with_title <$> omap (fun n => byName !! n) CATEGORY_ORDER) as [|p ps] eqn:E.
  { apply fmap_nil_inv in E. done. }
  rewrite <- E. clear E p ps. split; [|split].
  - rewrite <- list_fmap_compose. change (name ∘ with_title) with name.
    subst byName. rewrite prioritized_names.
    apply NoDup_filter, NoDup_CATEGORY_ORDER.
  - apply list_elem_of_fmap. exists c. split; [done|].
    apply list_elem_of_omap. eauto.
  - intros r Hr Hname. apply list_elem_of_fmap in Hr as (src & -> & Hsrc).
    apply list_elem_of_omap in Hsrc as (n & Hn & Hsrc).
    pose proof Hsrc as Hsrc'. apply byName_Some in Hsrc' as [_ Hn'].
    rewrite with_title_name in Hname. rewrite <- Hn', Hname, Hlook in Hsrc.
    by injection Hsrc as ->.
Qed.

Lemma prioritized_last_wins_witness :
  let old := mkCategory "food" (JStr "Old") (Some ["a.jpg"]) in
  let new := mkCategory "food" (JStr "New") (Some ["b.jpg"; "c.jpg"]) in
  let all := [old; mkCategory "pets" undefined (Some ["p.jpg"]); new;
              mkCategory "food" undefined (Some [])] in
  NoDup (name <$> prioritizeCategories (Some all)) /\
  with_title new ∈ prioritizeCategories (Some all) /\
  forall r, r ∈ prioritizeCategories (Some all) -> name r = name new -> r = with_title new.
Proof.
  apply (prioritized_last_wins
           [mkCategory "food" (JStr "Old") (Some ["a.jpg"]);
            mkCategory "pets" undefined (Some ["p.jpg"]);
            mkCategory "food" (JStr "New") (Some ["b.jpg"; "c.jpg"]);
            mkCategory "food" undefined (Some [])]
           [mkCategory "food" (JStr "Old") (Some ["a.jpg"]);
            mkCategory "pets" undefined (Some ["p.jpg"])]
           []
           (mkCategory "food" (JStr "New") (Some ["b.jpg"; "c.jpg"]))).
  - reflexivity.
  - apply (bool_decide_unpack _). by vm_compute.
  - intros c' Hc'. by apply not_elem_of_nil in Hc'.
Defined.

(** ** The manifest loader *)

(** X7: on a page served from the local file system the loader throws
    without asking for the manifest; otherwise it asks for the manifest
    exactly once, at the manifest URL; it returns a manifest exactly when the
    page is not local and the response is successful with a JSON body, and
    then it returns that body. *)
Theorem loadManifest_outcome (w : World) :
  (location_protocol w = "file:" ->
   loadManifest w
   = (Throw (Error "Local file protocol blocks fetch; run a local server."), w)) /\
  (location_protocol w <> "file:" ->
   fetch_log (snd (loadManifest w)) = fetch_log w ++ [MANIFEST_URL]) /\
  (forall m, fst (loadManifest w) = Normal m <->
             location_protocol w <> "file:" /\ network w = Response true (Some m)).
Proof.
  split; [apply loadManifest_file|]. split.
  - intros Hp. apply String.eqb_neq in Hp.
    unfold loadManifest, bind, get, modify, throw, ret; simpl. rewrite Hp.
    by destruct (network w) as [|[] [m|]].
  - intros m. split.
    + unfold loadManifest, bind, get, modify, throw, ret; simpl.
      destruct (String.eqb (location_protocol w) "file:") eqn:Hp; [done|].
      apply String.eqb_neq in Hp.
      destruct (network w) as [|[] [m'|]]; simpl; try done.
      by intros [= ->].
    + intros [Hp Hn]. by rewrite (loadManifest_ok w m Hp Hn).
Qed.

Lemma loadManifest_outcome_witness :
  fetch_log (snd (loadManifest (fresh_page "" sample_manifest)))
  = fetch_log (fresh_page "" sample_manifest) ++ [MANIFEST_URL]
  /\ loadManifest (offline_page "file:")
     = (Throw (Error "Local file protocol blocks fetch; run a local server."),
        offline_page "file:").
Proof.
  split.
  - apply (loadManifest_outcome (fresh_page "" sample_manifest)). discriminate.
  - apply (loadManifest_outcome (offline_page "file:")). reflexivity.
Defined.

(** ** What the entry points leave alone *)

Lemma activate_page v k index setHash w :
  let w' := snd (activate v k index setHash w) in
  document w' = document w /\
  fetch_log w' = fetch_log w /\
  location_protocol w' = location_protocol w /\
  hashchange_listeners w' = hashchange_listeners w /\
  (setHash = false ->
   location_hash w' = location_hash w /\ history_length w' = history_length w) /\
  (tabsets w' = tabsets w \/ exists ts', tabsets w' = <[k := ts']> (tabsets w)).
Proof.
  unfold activate, bind, get, modify, throw, ret; simpl.
  destruct (tabsets w !! k) as [ts|]; simpl.
  { destruct setHash; simpl.
    - destruct (js_index (cats ts) index) as [cat|]; simpl.
      + destruct (js_index _ index); unfold write_hash; simpl;
          destruct (replaceState_throws w); simpl;
          repeat split; try done; eauto.
      + repeat split; try done; eauto.
    - destruct (js_index _ index); simpl; repeat split; try done; eauto. }
  repeat split; try done; eauto.
Qed.

Lemma loadManifest_fetches w :
  fetch_log (snd (loadManifest w)) = fetch_log w \/
  fetch_log (snd (loadManifest w)) = fetch_log w ++ [MANIFEST_URL].
Proof.
  unfold loadManifest, bind, get, modify, throw, ret; simpl.
  destruct (String.eqb (location_protocol w) "file:"); [by left|].
  right. by destruct (network w) as [|[] [m|]].
Qed.

Lemma renderPortfolio_page v rootId w r w' :
  renderPortfolio v rootId w = (r, w') ->
  r = Normal tt /\
  (exists extra, document w' = appended rootId extra (document w)) /\
  location_hash w' = location_hash w /\
  history_length w' = history_length w /\
  (fetch_log w' = fetch_log w \/ fetch_log w' = fetch_log w ++ [MANIFEST_URL]) /\
  (tabsets w' = tabsets w \/ exists ts, tabsets w' = tabsets w ++ [ts]).
Proof.
  unfold renderPortfolio, bind at 1, get at 1; simpl.
  destruct (getElementById rootId w) as [kids|].
  2: { intros [= <- <-]. repeat split; try done; [by exists [] | by left | by left]. }
  unfold try_catch, bind at 1.
  pose proof (loadManifest_page w) as (Hd & Ht & Hp & Hh & Hl & Hls & Ha).
  pose proof (loadManifest_fetches w) as Hf.
  destruct (loadManifest w) as [[m|e] w1]; simpl in *.
  2: { unfold bind, get, root_appendChild, modify; simpl. intros [= <- <-]; simpl.
       repeat split; try done; [|by left]. eexists [_]. simpl. by rewrite Hd. }
  destruct (resolve_categories v m) as [|c0 cs'] eqn:Ecs.
  { unfold root_appendChild, modify; simpl. intros [= <- <-]; simpl.
    repeat split; try done; [|by left]. eexists [_]. simpl. by rewrite Hd. }
  rewrite <- Ecs. clear Ecs c0 cs'.
  unfold bind at 1, get at 1. unfold bind at 1, modify at 1.
  unfold bind at 1, root_appendChild at 1, modify at 1.
  unfold bind at 1, root_appendChild at 1, modify at 1. simpl.
  unfold bind at 1.
  match goal with |- context [activate v ?k ?i false ?w4] =>
    pose proof (activate_page v k i false w4) as (Hd' & Hf' & Hp' & _ & Hh' & Hts');
    destruct (activate v k i false w4) as [[[]|e] w5]
  end; simpl in *; destruct (Hh' eq_refl) as [Hh1 Hh2].
  - intros [= <- <-]; simpl. repeat split; try congruence;
      try (destruct Hf as [Hf|Hf]; [left | right]; by rewrite Hf', Hf).
    + eexists [_; _]. simpl. by rewrite Hd', Hd.
    + right. destruct Hts' as [-> | [ts' ->]]; rewrite Ht; [eauto|].
      eexists. rewrite insert_app_r_alt by lia.
      rewrite Nat.sub_diag. done.
  - unfold bind, get, root_appendChild, modify; simpl.
    intros [= <- <-]; simpl. repeat split; try congruence;
      try (destruct Hf as [Hf|Hf]; [left | right]; by rewrite Hf', Hf).
    + eexists [_; _; _]. simpl. by rewrite Hd', Hd.
    + right. destruct Hts' as [-> | [ts' ->]]; rewrite Ht; [eauto|].
      eexists. rewrite insert_app_r_alt by lia.
      rewrite Nat.sub_diag. done.
Qed.

Lemma renderFeatured_page v rootId count w r w' :
  renderFeatured v rootId count w = (r, w') ->
  r = Normal tt /\
  (exists extra, document w' = appended rootId extra (document w)) /\
  tabsets w' = tabsets w /\
  location_hash w' = location_hash w /\
  history_length w' = history_length w /\
  hashchange_listeners w' = hashchange_listeners w /\
  activeElement w' = activeElement w /\
  (fetch_log w' = fetch_log w \/ fetch_log w' = fetch_log w ++ [MANIFEST_URL]).
Proof.
  unfold renderFeatured, bind at 1, get at 1; simpl.
  destruct (getElementById rootId w) as [kids|].
  2: { intros [= <- <-]. repeat split; try done; [by exists [] | by left]. }
  unfold try_catch, bind at 1.
  pose proof (loadManifest_page w) as (Hd & Ht & Hp & Hh & Hl & Hls & Ha).
  pose proof (loadManifest_fetches w) as Hf.
  destruct (loadManifest w) as [[m|e] w1]; simpl in *.
  2: { unfold bind, get, root_appendChild, modify; simpl. intros [= <- <-]; simpl.
       repeat split; try done. eexists [_]. simpl. by rewrite Hd. }
  destruct (categories m) as [cs|].
  - rewrite (forEach_appendChild (fun it => Static (figureFor v it.1 it.2))).
    intros [= <- <-]; simpl. repeat split; try done.
    exists ((fun it => Static (figureFor v it.1 it.2))
              <$> slice0 (flatten m cs) (default 6%Z count)).
    unfold appended. rewrite Hd. generalize (document w).
    induction (slice0 (flatten m cs) (default 6%Z count)) as [|x l IH];
      intros d; [done | apply IH].
  - unfold throw, bind, get, root_appendChild, modify; simpl.
    intros [= <- <-]; simpl. repeat split; try done.
    eexists [_]. simpl. by rewrite Hd.
Qed.

Lemma lookup_root_appended rootId extra : forall d kids,
  lookup_root rootId d = Some kids ->
  lookup_root rootId (appended rootId extra d) = Some (kids ++ extra).
Proof.
  intros d kids H. unfold appended.
  rewrite (lookup_root_foldl_append (fun c => c) rootId extra d kids H).
  by rewrite list_fmap_id.
Qed.

Lemma lookup_root_appended_other rootId id extra : forall d,
  id <> rootId -> lookup_root id (appended rootId extra d) = lookup_root id d.
Proof.
  unfold appended. induction extra as [|c r IH]; intros d Hne; simpl; [done|].
  rewrite IH by done. by apply lookup_root_append_other.
Qed.

Lemma appended_missing rootId extra : forall d,
  lookup_root rootId d = None -> appended rootId extra d = d.
Proof.
  unfold appended. induction extra as [|c r IH]; intros d H; simpl; [done|].
  rewrite (append_to_missing rootId c d H). by apply IH.
Qed.

(** X8: neither entry point ever throws: whatever the page, the outcome of
    the request and the manifest, both return normally. *)
Theorem renderers_never_throw (v : Variant) (rootId : string) (count : option Z)
    (w : World) :
  fst (renderPortfolio v rootId w) = Normal tt /\
  fst (renderFeatured v rootId count w) = Normal tt.
Proof.
  split.
  - destruct (renderPortfolio v rootId w) as [r w'] eqn:E.
    by apply renderPortfolio_page in E as [-> _].
  - destruct (renderFeatured v rootId count w) as [r w'] eqn:E.
    by apply renderFeatured_page in E as [-> _].
Qed.

(** X9: both entry points only append: after either call every element of
    the page has the children it had, in their order, followed for the mount
    root alone by what the call appended; no element is added or removed. *)
Theorem renderers_only_append (v : Variant) (rootId : string) (count : option Z)
    (w : World) :
  (exists extra, forall id,
     getElementById id (snd (renderPortfolio v rootId w))
     = (fun kids => kids ++ (if bool_decide (id = rootId) then extra else []))
         <$> getElementById id w) /\
  (exists extra, forall id,
     getElementById id (snd (renderFeatured v rootId count w))
     = (fun kids => kids ++ (if bool_decide (id = rootId) then extra else []))
         <$> getElementById id w).
Proof.
  split.
  - destruct (renderPortfolio v rootId w) as [r w'] eqn:E.
    apply renderPortfolio_page in E as (_ & [extra Hd] & _).
    exists extra. intros id. unfold getElementById; simpl. rewrite Hd.
    case_bool_decide as Hid.
    + subst id. destruct (lookup_root rootId (document w)) as [kids|] eqn:El.
      * by rewrite (lookup_root_appended rootId extra _ kids El).
      * by rewrite (appended_missing rootId extra _ El), El.
    + rewrite (lookup_root_appended_other rootId id extra _ Hid).
      destruct (lookup_root id (document w)); simpl; [by rewrite app_nil_r | done].
  - destruct (renderFeatured v rootId count w) as [r w'] eqn:E.
    apply renderFeatured_page in E as (_ & [extra Hd] & _).
    exists extra. intros id. unfold getElementById; simpl. rewrite Hd.
    case_bool_decide as Hid.
    + subst id. destruct (lookup_root rootId (document w)) as [kids|] eqn:El.
      * by rewrite (lookup_root_appended rootId extra _ kids El).
      * by rewrite (appended_missing rootId extra _ El), El.
    + rewrite (lookup_root_appended_other rootId id extra _ Hid).
      destruct (lookup_root id (document w)); simpl; [by rewrite app_nil_r | done].
Qed.

(** X10: the featured strip never touches the tabs: when the root is not
    one of the tabs and panels that the script has made, after
    [renderFeatured] the tab sets, the URL fragment, the history, the
    [hashchange] listeners and the focus are what they were, and the manifest
    was requested at most once. *)
Theorem renderFeatured_leaves_tabs (v : Variant) (rootId : string)
    (count : option Z) (w : World) :
  rootId ∉ created_ids w ->
  let w' := snd (renderFeatured v rootId count w) in
  tabsets w' = tabsets w /\
  location_hash w' = location_hash w /\
  history_length w' = history_length w /\
  hashchange_listeners w' = hashchange_listeners w /\
  activeElement w' = activeElement w /\
  (fetch_log w' = fetch_log w \/ fetch_log w' = fetch_log w ++ [MANIFEST_URL]).
Proof.
  intros _.
  destruct (renderFeatured v rootId count w) as [r w'] eqn:E.
  apply renderFeatured_page in E as (_ & _ & H). exact H.
Qed.

Lemma renderFeatured_leaves_tabs_witness :
  let w := sample_page Plain "#food" in
  let w' := snd (renderFeatured Plain "featured" (Some 2%Z) w) in
  tabsets w' = tabsets w /\
  location_hash w' = location_hash w /\
  history_length w' = history_length w /\
  hashchange_listeners w' = hashchange_listeners w /\
  activeElement w' = activeElement w /\
  (fetch_log w' = fetch_log w \/ fetch_log w' = fetch_log w ++ [MANIFEST_URL]).
Proof.
  apply (renderFeatured_leaves_tabs Plain "featured" (Some 2%Z) (sample_page Plain "#food")).
  apply (bool_decide_unpack _). by vm_compute.
Defined.

(** X11: [renderPortfolio] never rewrites the URL: when the root is not one
    of the tabs and panels that the script has made, whatever the outcome,
    the fragment and the history are what they were; it requests the manifest
    at most once, leaves the tab sets of earlier calls as they were and adds
    at most one tab set. *)
Theorem renderPortfolio_keeps_url (v : Variant) (rootId : string) (w : World) :
  rootId ∉ created_ids w ->
  let w' := snd (renderPortfolio v rootId w) in
  location_hash w' = location_hash w /\
  history_length w' = history_length w /\
  (fetch_log w' = fetch_log w \/ fetch_log w' = fetch_log w ++ [MANIFEST_URL]) /\
  (tabsets w' = tabsets w \/ exists ts, tabsets w' = tabsets w ++ [ts]).
Proof.
  intros _.
  destruct (renderPortfolio v rootId w) as [r w'] eqn:E.
  apply renderPortfolio_page in E as (_ & _ & H). exact H.
Qed.

Lemma renderPortfolio_keeps_url_witness :
  let w := sample_page Plain "#food" in
  let w' := snd (renderPortfolio Plain "featured" w) in
  location_hash w' = location_hash w /\
  history_length w' = history_length w /\
  (fetch_log w' = fetch_log w \/ fetch_log w' = fetch_log w ++ [MANIFEST_URL]) /\
  (tabsets w' = tabsets w \/ exists ts, tabsets w' = tabsets w ++ [ts]).
Proof.
  apply (renderPortfolio_keeps_url Plain "featured" (sample_page Plain "#food")).
  apply (bool_decide_unpack _). by vm_compute.
Defined.

Example created_ids_sample :
  created_ids (sample_page Plain "")
  = ["tab-food"; "tab-street-life"; "tab-portraits";
     "panel-food"; "panel-street-life"; "panel-portraits"].
Proof. vm_compute. reflexivity. Qed.

(** ** What [renderPortfolio] builds *)

Lemma enableMasonry_children g : g_children (enableMasonry g) = g_children g.
Proof. unfold enableMasonry, schedule. case_bool_decide; [done | by simpl]. Qed.

Lemma activate_elements_panel v index ts j p0 :
  panelEls ts !! j = Some p0 ->
  exists p,
    panelEls (activate_elements v index ts) !! j = Some p /\
    panel_node p = panel_node p0 /\
    g_children (panel_gallery p) = g_children (panel_gallery p0).
Proof.
  intros Hj.
  assert (imap (show_panel index) (panelEls ts) !! j = Some (show_panel index j p0))
    as Hshow by (by rewrite list_lookup_imap, Hj).
  destruct v; simpl; [|eauto].
  unfold enable_gallery_at, js_index.
  destruct (0 <=? index)%Z; [|eauto].
  destruct (imap (show_panel index) (panelEls ts) !! Z.to_nat index) as [p|] eqn:E;
    [|eauto].
  destruct (querySelector_gallery p) as [g|] eqn:Eg; [|eauto].
  destruct (decide (j = Z.to_nat index)) as [->|Hne].
  - rewrite list_lookup_insert_eq by (by eapply lookup_lt_Some).
    eexists. split; [done|]. rewrite Hshow in E. injection E as <-.
    unfold querySelector_gallery in Eg.
    destruct (classList_contains _ _); [|done]. injection Eg as <-.
    simpl. by rewrite enableMasonry_children.
  - rewrite list_lookup_insert_ne by done. eauto.
Qed.

Lemma select_tab_attributes index j c :
  let t := select_tab index j (make_tab c) in
  Node_getAttribute "id" (tab_node t) = Some ("tab-" +:+ name c) /\
  Node_getAttribute "aria-controls" (tab_node t) = Some ("panel-" +:+ name c) /\
  Node_getAttribute "role" (tab_node t) = Some "tab" /\
  Node_className (tab_node t) = Some "tab" /\
  Node_children (tab_node t) = [TextNode (String_of (display_title c))].
Proof. unfold select_tab. by destruct (Z.of_nat j =? index)%Z. Qed.

Lemma make_panel_attributes v m c :
  let p := make_panel v m c in
  Node_getAttribute "id" (panel_node p) = Some ("panel-" +:+ name c) /\
  Node_getAttribute "aria-labelledby" (panel_node p) = Some ("tab-" +:+ name c) /\
  Node_getAttribute "role" (panel_node p) = Some "tabpanel" /\
  Node_className (panel_node p) = Some "tab-panel".
Proof. done. Qed.

(** X12: a successful [renderPortfolio] appends the tab list and the panel
    wrapper, in this order, after what the root held, and builds one tab and
    one panel per resolved category, in the order of the resolved list: the
    tab of a category is labelled with its display title and refers to the
    panel of the same category by [aria-controls], the panel refers back by
    [aria-labelledby], and the gallery of the panel holds one figure per
    image of the category, in order, whose image has the source
    [basePath/name/file]. *)
Theorem renderPortfolio_structure (v : Variant) (rootId : string) (w : World)
    (kids : list Child) (m : Manifest) :
  getElementById rootId w = Some kids ->
  location_protocol w <> "file:" ->
  network w = Response true (Some m) ->
  resolve_categories v m <> [] ->
  let cs := resolve_categories v m in
  let k := length (tabsets w) in
  let w' := snd (renderPortfolio v rootId w) in
  getElementById rootId w'
  = Some (kids ++ [TabList tablist_node k; PanelsWrap (el "div" [] []) k]) /\
  exists ts',
    tabsets w' !! k = Some ts' /\
    length (tabEls ts') = length cs /\ length (panelEls ts') = length cs /\
    forall j c, cs !! j = Some c ->
      exists t p,
        tabEls ts' !! j = Some t /\ panelEls ts' !! j = Some p /\
        Node_getAttribute "id" (tab_node t) = Some ("tab-" +:+ name c) /\
        Node_getAttribute "aria-controls" (tab_node t) = Some ("panel-" +:+ name c) /\
        Node_getAttribute "role" (tab_node t) = Some "tab" /\
        Node_children (tab_node t) = [TextNode (String_of (display_title c))] /\
        Node_getAttribute "id" (panel_node p) = Some ("panel-" +:+ name c) /\
        Node_getAttribute "aria-labelledby" (panel_node p) = Some ("tab-" +:+ name c) /\
        Node_getAttribute "role" (panel_node p) = Some "tabpanel" /\
        item_node <$> g_children (panel_gallery p)
        = (fun file => figureFor v (image_src m c file) (alt_text c))
            <$> images_or_empty c /\
        (fun it => img_src (item_node it)) <$> g_children (panel_gallery p)
        = (fun file => Some (basePath m +:+ "/" +:+ name c +:+ "/" +:+ file))
            <$> images_or_empty c.
Proof.
  intros Hroot Hp Hn Hcs cs k w'.
  destruct (renderPortfolio_renders v rootId w kids m Hroot Hp Hn Hcs) as [Hidx Hrender].
  subst w'. rewrite Hrender. simpl snd. fold cs in Hidx |- *.
  set (i := Z.to_nat _) in *.
  set (ts0 := mkTabSet cs (make_tab <$> cs) (make_panel v m <$> cs)).
  split.
  { unfold getElementById, portfolio_rendered; simpl.
    rewrite (lookup_root_append rootId _ _ (kids ++ [TabList tablist_node k])).
    - by rewrite <- app_assoc.
    - by apply lookup_root_append. }
  exists (activate_elements v (Z.of_nat i) ts0).
  split.
  { unfold portfolio_rendered; simpl. apply list_lookup_insert_eq.
    rewrite length_app; simpl. lia. }
  split; [simpl; by rewrite length_imap, length_fmap|].
  split; [by rewrite activate_elements_panels_length; simpl; rewrite length_fmap|].
  intros j c Hj.
  assert (panelEls ts0 !! j = Some (make_panel v m c)) as Hp0
    by (simpl; by rewrite list_lookup_fmap, Hj).
  destruct (activate_elements_panel v (Z.of_nat i) ts0 j _ Hp0) as (p & Hpj & Hnode & Hkids).
  exists (select_tab (Z.of_nat i) j (make_tab c)), p.
  split.
  { rewrite activate_elements_tabs, list_lookup_imap. simpl.
    by rewrite list_lookup_fmap, Hj. }
  split; [done|].
  destruct (select_tab_attributes (Z.of_nat i) j c) as (H1 & H2 & H3 & _ & H5).
  destruct (make_panel_attributes v m c) as (H6 & H7 & H8 & _).
  rewrite Hnode, Hkids. repeat split; try done.
  - simpl. by rewrite <- list_fmap_compose.
  - simpl. rewrite <- list_fmap_compose. apply list_fmap_ext.
    intros ? file _. simpl. apply figureFor_src.
Qed.

Lemma renderPortfolio_structure_witness :
  let w := fresh_page "" sample_manifest in
  let cs := resolve_categories WithMasonry sample_manifest in
  let w' := snd (renderPortfolio WithMasonry "portfolio" w) in
  getElementById "portfolio" w'
  = Some ([Static (TextNode "Portfolio")] ++
          [TabList tablist_node 0; PanelsWrap (el "div" [] []) 0]) /\
  exists ts',
    tabsets w' !! 0 = Some ts' /\
    length (tabEls ts') = length cs /\ length (panelEls ts') = length cs /\
    forall j c, cs !! j = Some c ->
      exists t p,
        tabEls ts' !! j = Some t /\ panelEls ts' !! j = Some p /\
        Node_getAttribute "id" (tab_node t) = Some ("tab-" +:+ name c) /\
        Node_getAttribute "aria-controls" (tab_node t) = Some ("panel-" +:+ name c) /\
        Node_getAttribute "role" (tab_node t) = Some "tab" /\
        Node_children (tab_node t) = [TextNode (String_of (display_title c))] /\
        Node_getAttribute "id" (panel_node p) = Some ("panel-" +:+ name c) /\
        Node_getAttribute "aria-labelledby" (panel_node p) = Some ("tab-" +:+ name c) /\
        Node_getAttribute "role" (panel_node p) = Some "tabpanel" /\
        item_node <$> g_children (panel_gallery p)
        = (fun file => figureFor WithMasonry (image_src sample_manifest c file)
                         (alt_text c)) <$> images_or_empty c /\
        (fun it => img_src (item_node it)) <$> g_children (panel_gallery p)
        = (fun file => Some (basePath sample_manifest +:+ "/" +:+ name c +:+ "/" +:+ file))
            <$> images_or_empty c.
Proof.
  apply (renderPortfolio_structure WithMasonry "portfolio"
           (fresh_page "" sample_manifest) [Static (TextNode "Portfolio")]
           sample_manifest).
  - reflexivity.
  - discriminate.
  - reflexivity.
  - vm_compute. discriminate.
Defined.

(** ** Activation: bounds, the URL and repetition *)

Lemma js_index_out_of_range {A} (l : list A) (index : Z) :
  (index < 0 \/ Z.of_nat (length l) <= index)%Z -> js_index l index = None.
Proof.
  intros H. unfold js_index.
  destruct (0 <=? index)%Z eqn:E; [|done].
  apply Z.leb_le in E. apply lookup_ge_None. lia.
Qed.

(** The elements after [activate(index, _)] for any number [index]. *)
Lemma activate_elements_marks (v : Variant) (index : Z) (ts : TabSet) :
  rendered ts ->
  forall j, j < length (tabEls ts) ->
    exists t p,
      tabEls (activate_elements v index ts) !! j = Some t /\
      panelEls (activate_elements v index ts) !! j = Some p /\
      aria_selected t = Some (if (Z.of_nat j =? index)%Z then "true" else "false") /\
      tabIndex t = (if (Z.of_nat j =? index)%Z then 0 else -1)%Z /\
      hidden p = negb (Z.of_nat j =? index)%Z.
Proof.
  intros [Ht Hp Hb] j Hj.
  destruct (lookup_lt_is_Some_2 (tabEls ts) j Hj) as [t0 Ht0].
  destruct (lookup_lt_is_Some_2 (panelEls ts) j ltac:(lia)) as [p0 Hp0].
  pose proof (activate_elements_hidden v index ts j) as Hh.
  rewrite Hp0 in Hh.
  destruct (panelEls (activate_elements v index ts) !! j) as [p|] eqn:Ep;
    simpl in Hh; [|discriminate Hh].
  injection Hh as Hh.
  exists (select_tab index j t0), p.
  split; [rewrite activate_elements_tabs, list_lookup_imap; by rewrite Ht0|].
  split; [done|].
  rewrite Forall_forall in Hb.
  assert (is_element (tab_node t0) = true) as He
    by (apply Hb; by eapply list_elem_of_lookup_2).
  unfold aria_selected, select_tab; simpl.
  rewrite Node_get_set_attribute by done.
  by destruct (Z.of_nat j =? index)%Z.
Qed.

(** X13: [activate] with an index outside the tab set throws a [TypeError],
    and by then it has deselected every tab, taken every tab out of the tab
    order and hidden every panel; the fragment, the history and the focus are
    as before. *)
Theorem activate_out_of_range (v : Variant) (k : nat) (index : Z) (setHash : bool)
    (w : World) (ts : TabSet) :
  tabsets w !! k = Some ts -> rendered ts ->
  (index < 0 \/ Z.of_nat (length (tabEls ts)) <= index)%Z ->
  exists w' ts',
    activate v k index setHash w = (Throw TypeError, w') /\
    tabsets w' !! k = Some ts' /\
    (forall j, j < length (tabEls ts) ->
       exists t p,
         tabEls ts' !! j = Some t /\ panelEls ts' !! j = Some p /\
         aria_selected t = Some "false" /\ tabIndex t = (-1)%Z /\ hidden p = true) /\
    location_hash w' = location_hash w /\
    history_length w' = history_length w /\
    activeElement w' = activeElement w.
Proof.
  intros Hk Hr Hout. pose proof Hr as [Ht Hp Hb].
  assert (k < length (tabsets w)) as Hlen by (by eapply lookup_lt_Some).
  exists (set_tabsets (<[k := activate_elements v index ts]> (tabsets w)) w),
         (activate_elements v index ts).
  split.
  { unfold activate, bind, get, modify, throw, ret. rewrite Hk. simpl.
    rewrite (js_index_out_of_range (cats ts)) by lia.
    rewrite (js_index_out_of_range (imap _ _)) by (rewrite length_imap; lia).
    by destruct setHash. }
  split; [simpl; by apply list_lookup_insert_eq|].
  split; [|done].
  intros j Hj.
  destruct (activate_elements_marks v index ts Hr j Hj) as (t & p & H1 & H2 & H3 & H4 & H5).
  assert ((Z.of_nat j =? index)%Z = false) as Hne by (apply Z.eqb_neq; lia).
  rewrite Hne in H3, H4, H5. exists t, p. done.
Qed.

Lemma activate_out_of_range_witness :
  exists w' ts',
    activate Plain 0 3 true (sample_page Plain "#food") = (Throw TypeError, w') /\
    tabsets w' !! 0 = Some ts' /\
    (forall j, j < length (tabEls (sample_tabset Plain "#food")) ->
       exists t p,
         tabEls ts' !! j = Some t /\ panelEls ts' !! j = Some p /\
         aria_selected t = Some "false" /\ tabIndex t = (-1)%Z /\ hidden p = true) /\
    location_hash w' = location_hash (sample_page Plain "#food") /\
    history_length w' = history_length (sample_page Plain "#food") /\
    activeElement w' = activeElement (sample_page Plain "#food").
Proof.
  apply (activate_out_of_range Plain 0 3 true (sample_page Plain "#food")
           (sample_tabset Plain "#food")).
  - reflexivity.
  - split; vm_compute; [reflexivity | reflexivity | repeat constructor].
  - right. vm_compute. discriminate.
Defined.

Lemma activated_hash v k i ts w c :
  cats ts !! i = Some c ->
  location_hash (activated v k i true ts w) = hash_of_fragment (name c) /\
  history_length (activated v k i true ts w)
  = history_length w
    + (if replaceState_throws w
       then (if String.eqb (location_hash w) (hash_of_fragment (name c)) then 0 else 1)
       else 0).
Proof.
  intros Hc. unfold activated. rewrite Hc. unfold write_hash; simpl.
  destruct (replaceState_throws w); simpl; [done | split; [done | lia]].
Qed.

(** X14: [activate(i, true)] on a category whose name is made of letters,
    digits, hyphens and underscores leaves the URL with that name as its
    fragment.  When [history.replaceState] works the history keeps its
    length; when it throws, the fallback assignment adds one entry if the
    fragment changes and none if it was already that name. *)
Theorem activate_writes_hash (v : Variant) (k i : nat) (w : World) (ts : TabSet)
    (c : Category) :
  tabsets w !! k = Some ts -> rendered ts -> cats ts !! i = Some c ->
  identifier (name c) = true -> name c <> "" ->
  let w' := snd (activate v k (Z.of_nat i) true w) in
  location_hash w' = "#" +:+ name c /\
  remove_first_hash (location_hash w') = name c /\
  history_length w'
  = history_length w
    + (if replaceState_throws w
       then (if String.eqb (location_hash w) ("#" +:+ name c) then 0 else 1)
       else 0).
Proof.
  intros Hk [Ht Hp Hb] Hc _ Hne w'.
  assert (i < length (cats ts)) as Hi by (by eapply lookup_lt_Some).
  assert (hash_of_fragment (name c) = "#" +:+ name c) as Hfrag.
  { unfold hash_of_fragment. by rewrite (proj2 (String.eqb_neq _ _) Hne). }
  subst w'. rewrite (activate_valid v k i true w ts Hk) by lia. simpl snd.
  destruct (activated_hash v k i ts w c Hc) as [Hh Hl].
  rewrite Hh, Hl, <- Hfrag.
  split; [done|]. split; [apply remove_first_hash_fragment | done].
Qed.

Lemma activate_writes_hash_witness :
  let w := sample_page Plain "" in
  let c := mkCategory "street-life" undefined (Some ["s.jpg"]) in
  let w' := snd (activate Plain 0 (Z.of_nat 1) true w) in
  location_hash w' = "#" +:+ name c /\
  remove_first_hash (location_hash w') = name c /\
  history_length w'
  = history_length w
    + (if replaceState_throws w
       then (if String.eqb (location_hash w) ("#" +:+ name c) then 0 else 1)
       else 0).
Proof.
  apply (activate_writes_hash Plain 0 1 (sample_page Plain "") (sample_tabset Plain "")
           (mkCategory "street-life" undefined (Some ["s.jpg"]))).
  - reflexivity.
  - split; vm_compute; [reflexivity | reflexivity | repeat constructor].
  - reflexivity.
  - reflexivity.
  - discriminate.
Defined.

Lemma findIndex_NoDup (l : list Category) i c :
  NoDup (name <$> l) -> l !! i = Some c -> findIndex (name c) l = Z.of_nat i.
Proof.
  intros Hnd Hi.
  destruct (findIndex_spec (name c) l) as [(j & c' & -> & Hj & Hname & _)|[_ Hnone]].
  - f_equal. apply (NoDup_lookup (name <$> l) j i (name c)); [done| |].
    + by rewrite list_lookup_fmap, Hj, <- Hname.
    + by rewrite list_lookup_fmap, Hi.
  - exfalso. apply (Hnone c); [by eapply list_elem_of_lookup_2 | done].
Qed.

Lemma on_hashchange_found v k w ts j :
  tabsets w !! k = Some ts ->
  findIndex (remove_first_hash (location_hash w)) (cats ts) = Z.of_nat j ->
  on_hashchange v k w = activate v k (Z.of_nat j) false w.
Proof.
  intros Hk Hfind. unfold on_hashchange, bind at 1, get at 1.
  cbn beta iota. rewrite Hk. cbn beta iota zeta. rewrite Hfind.
  destruct (0 <=? Z.of_nat j)%Z eqn:E; [done | apply Z.leb_gt in E; lia].
Qed.

(** X15: the fragment that [activate(i, true)] writes leads back to [i]:
    when the rendered categories bear distinct names and the name of the
    activated one is made of letters, digits, hyphens and underscores (so
    that the browser keeps it as it is), looking the written fragment up
    among the categories gives [i], so that the [hashchange] listener
    activates [i] again (this time without writing), as does the initial
    selection of a later load of the page. *)
Theorem hash_round_trip (v : Variant) (k i : nat) (w : World) (ts : TabSet)
    (c : Category) :
  tabsets w !! k = Some ts -> rendered ts -> cats ts !! i = Some c ->
  identifier (name c) = true -> name c <> "" ->
  NoDup (name <$> cats ts) ->
  let w' := snd (activate v k (Z.of_nat i) true w) in
  findIndex (remove_first_hash (location_hash w')) (cats ts) = Z.of_nat i /\
  on_hashchange v k w' = activate v k (Z.of_nat i) false w'.
Proof.
  intros Hk Hr Hc _ _ Hnd w'. pose proof Hr as [Ht Hp Hb].
  assert (i < length (cats ts)) as Hi by (by eapply lookup_lt_Some).
  subst w'. rewrite (activate_valid v k i true w ts Hk) by lia. simpl snd.
  destruct (activated_hash v k i ts w c Hc) as [Hh _].
  assert (findIndex (remove_first_hash (location_hash (activated v k i true ts w)))
            (cats ts) = Z.of_nat i) as Hfind.
  { rewrite Hh, remove_first_hash_fragment. by apply findIndex_NoDup. }
  split; [done|].
  apply (on_hashchange_found v k _ (activate_elements v (Z.of_nat i) ts)).
  - by apply activated_tabset.
  - by rewrite activate_elements_cats.
Qed.

Lemma hash_round_trip_witness :
  let w' := snd (activate Plain 0 (Z.of_nat 2) true (sample_page Plain "")) in
  findIndex (remove_first_hash (location_hash w')) (cats (sample_tabset Plain ""))
  = Z.of_nat 2 /\
  on_hashchange Plain 0 w' = activate Plain 0 (Z.of_nat 2) false w'.
Proof.
  apply (hash_round_trip Plain 0 2 (sample_page Plain "") (sample_tabset Plain "")
           (mkCategory "portraits" (JStr "People") (Some ["p.jpg"]))).
  - reflexivity.
  - split; vm_compute; [reflexivity | reflexivity | repeat constructor].
  - reflexivity.
  - reflexivity.
  - discriminate.
  - apply (bool_decide_unpack _). by vm_compute.
Defined.



Lemma setAttribute_idemp k v attrs :
  setAttribute k v (setAttribute k v attrs) = setAttribute k v attrs.
Proof.
  induction attrs as [|[k0 v0] r IH]; simpl.
  - by rewrite String.eqb_refl.
  - destruct (String.eqb k k0) eqn:E; simpl.
    + by rewrite String.eqb_refl.
    + by rewrite E, IH.
Qed.

Lemma select_tab_idemp index j t :
  select_tab index j (select_tab index j t) = select_tab index j t.
Proof.
  unfold select_tab; simpl. f_equal.
  destruct (tab_node t); simpl; [|done]. by rewrite setAttribute_idemp.
Qed.

Lemma enableMasonry_idemp g : enableMasonry (enableMasonry g) = enableMasonry g.
Proof.
  destruct (decide (dataset_masonry g = Some "on")) as [H|H].
  - assert (enableMasonry g = g) as Heq
      by (unfold enableMasonry; by rewrite bool_decide_true).
    by rewrite !Heq.
  - assert (dataset_masonry (enableMasonry g) = Some "on") as H'.
    { unfold enableMasonry, schedule. by rewrite bool_decide_false. }
    unfold enableMasonry at 1. by rewrite bool_decide_true.
Qed.

Lemma enable_gallery_at_lookup index panels j :
  enable_gallery_at index panels !! j
  = (fun p => if bool_decide ((0 <= index)%Z /\ j = Z.to_nat index)
              then enable_panel p else p) <$> panels !! j.
Proof.
  unfold enable_gallery_at, js_index, enable_panel.
  destruct (0 <=? index)%Z eqn:E.
  - apply Z.leb_le in E.
    destruct (panels !! Z.to_nat index) as [p|] eqn:Ep.
    + destruct (decide (j = Z.to_nat index)) as [->|Hne].
      * rewrite bool_decide_true by done. rewrite Ep. simpl.
        destruct (querySelector_gallery p); [|by rewrite Ep].
        by rewrite list_lookup_insert_eq by (by eapply lookup_lt_Some).
      * rewrite bool_decide_false by tauto.
        destruct (querySelector_gallery p);
          [rewrite list_lookup_insert_ne by done|]; by destruct (panels !! j).
    + case_bool_decide as H; [|by destruct (panels !! j)].
      destruct H as [_ ->]. by rewrite Ep.
  - apply Z.leb_gt in E. rewrite bool_decide_false by lia. by destruct (panels !! j).
Qed.

Lemma enable_panel_show index j p :
  enable_panel (show_panel index j (enable_panel (show_panel index j p)))
  = enable_panel (show_panel index j p).
Proof.
  unfold enable_panel, querySelector_gallery, show_panel; simpl.
  destruct (classList_contains "gallery" (g_className (panel_gallery p))) eqn:E; simpl.
  - destruct (classList_contains "gallery" (g_className (enableMasonry _))); simpl;
      [by rewrite enableMasonry_idemp | done].
  - by rewrite E.
Qed.

Lemma show_panel_idemp index j p :
  show_panel index j (show_panel index j p) = show_panel index j p.
Proof. done. Qed.

(** Activating the same index again leaves the elements as they are. *)
Lemma activate_elements_idemp v index ts :
  activate_elements v index (activate_elements v index ts)
  = activate_elements v index ts.
Proof.
  unfold activate_elements; simpl. f_equal.
  - apply list_eq. intros j. rewrite !list_lookup_imap.
    destruct (tabEls ts !! j); simpl; [by rewrite select_tab_idemp | done].
  - destruct v.
    + apply list_eq. intros j.
      rewrite !enable_gallery_at_lookup, !list_lookup_imap, !enable_gallery_at_lookup,
        !list_lookup_imap.
      destruct (panelEls ts !! j) as [p|]; simpl; [|done]. f_equal.
      case_bool_decide; [apply enable_panel_show | done].
    + apply list_eq. intros j. rewrite !list_lookup_imap.
      by destruct (panelEls ts !! j).
Qed.

Lemma set_tabsets_id w : set_tabsets (tabsets w) w = w.
Proof. by destruct w. Qed.

Lemma set_hash_id w : set_hash (location_hash w) 0 w = w.
Proof. destruct w; unfold set_hash; simpl. by rewrite Nat.add_0_r. Qed.

Lemma set_activeElement_id k i w :
  activeElement w = Some (k, i) -> set_activeElement k i w = w.
Proof. destruct w; simpl. by intros ->. Qed.

Lemma write_hash_id n w :
  location_hash w = hash_of_fragment n -> write_hash n w = w.
Proof.
  intros H. unfold write_hash. rewrite H, String.eqb_refl.
  rewrite <- H. destruct (replaceState_throws w); apply set_hash_id.
Qed.

(** X17: activating the active tab again changes nothing: a second
    [activate(i, setHash)] with the same arguments returns normally and
    leaves the page, its elements, fragment, history and focus, exactly as
    the first call left it. *)
Theorem activate_twice (v : Variant) (k i : nat) (setHash : bool) (w : World)
    (ts : TabSet) :
  tabsets w !! k = Some ts -> rendered ts -> i < length (tabEls ts) ->
  let w1 := snd (activate v k (Z.of_nat i) setHash w) in
  activate v k (Z.of_nat i) setHash w1 = (Normal tt, w1).
Proof.
  intros Hk Hr Hi w1. pose proof Hr as [Ht Hp Hb].
  subst w1. rewrite (activate_valid v k i setHash w ts Hk) by lia. simpl snd.
  set (ts1 := activate_elements v (Z.of_nat i) ts).
  set (w1 := activated v k i setHash ts w).
  assert (tabsets w1 !! k = Some ts1) as Hk1 by (by apply activated_tabset).
  assert (rendered ts1) as Hr1 by (by apply activate_elements_rendered).
  rewrite (activate_valid v k i setHash w1 ts1 Hk1)
    by (subst ts1; simpl; rewrite ?length_imap; lia).
  f_equal. unfold activated at 1.
  subst ts1. rewrite activate_elements_idemp.
  rewrite (list_insert_id _ _ _ Hk1), set_tabsets_id, activate_elements_cats.
  destruct (lookup_lt_is_Some_2 (cats ts) i ltac:(lia)) as [c Hc]. rewrite Hc.
  assert (activeElement w1 = Some (k, i)) as Ha by done.
  destruct setHash.
  - destruct (activated_hash v k i ts w c Hc) as [Hh _]. fold w1 in Hh.
    rewrite (write_hash_id (name c) w1 Hh). by apply set_activeElement_id.
  - by apply set_activeElement_id.
Qed.

Lemma activate_twice_witness :
  let w1 := snd (activate WithMasonry 0 (Z.of_nat 1) true (sample_page WithMasonry "")) in
  activate WithMasonry 0 (Z.of_nat 1) true w1 = (Normal tt, w1).
Proof.
  apply (activate_twice WithMasonry 0 1 true (sample_page WithMasonry "")
           (sample_tabset WithMasonry "")).
  - reflexivity.
  - split; vm_compute; [reflexivity | reflexivity | repeat constructor].
  - vm_compute. lia.
Defined.

(** ** Masonry: scheduling and layout *)

Lemma Frames_schedule_pending (s : Frames.State) id :
  Frames.raf s = Some id -> Frames.schedule s = s.
Proof. intros H. unfold Frames.schedule. by rewrite H. Qed.

Lemma Frames_schedule_iter (s : Frames.State) (n : nat) id :
  Frames.raf s = Some id -> Nat.iter n Frames.schedule s = s.
Proof.
  intros H. induction n as [|n IH]; [done|].
  rewrite Nat.iter_succ, IH. by apply (Frames_schedule_pending s id).
Qed.

(** X18: requests for a layout are coalesced.  From the idle state of the
    closure ([raf] is [null], no callback of it waits in the window), however
    many times [schedule] runs before the frame, [requestAnimationFrame] is
    called once: the window holds one callback, and [raf] holds its id.  When
    the frame comes, [layoutMasonry] runs once and [raf] is [null] again, so
    that the next [schedule] asks for a frame again.  In the gallery record
    of the main model, [raf] tells whether a request is pending. *)
Theorem schedule_coalesces (s : Frames.State) (n : nat) :
  Frames.raf s = None -> Frames.callbacks s = [] ->
  let s1 := Nat.iter (S n) Frames.schedule s in
  let s2 := Frames.run_frame s1 in
  Frames.raf s1 = Some (Frames.next_id s) /\
  Frames.callbacks s1 = [Frames.next_id s] /\
  Frames.next_id s1 = S (Frames.next_id s) /\
  Frames.layouts s1 = Frames.layouts s /\
  Frames.raf s2 = None /\
  Frames.callbacks s2 = [] /\
  Frames.layouts s2 = S (Frames.layouts s) /\
  Frames.callbacks (Frames.schedule s2) = [Frames.next_id s2] /\
  forall gallery : GalleryEl, raf gallery = Frames.requested s ->
    raf (Nat.iter (S n) schedule gallery) = Frames.requested s1.
Proof.
  intros Hraf Hcb s1 s2.
  assert (s1 = Frames.mkState (Some (Frames.next_id s)) [Frames.next_id s]
                 (S (Frames.next_id s)) (Frames.layouts s)) as Hs1.
  { subst s1. rewrite Nat.iter_succ_r.
    assert (Frames.schedule s
            = Frames.mkState (Some (Frames.next_id s)) [Frames.next_id s]
                (S (Frames.next_id s)) (Frames.layouts s)) as ->.
    { unfold Frames.schedule, Frames.requestAnimationFrame. rewrite Hraf, Hcb. done. }
    by apply (Frames_schedule_iter _ n (Frames.next_id s)). }
  subst s2. rewrite Hs1.
  repeat split; try done.
  intros gallery _. rewrite Nat.iter_succ. unfold schedule.
  by destruct (raf (Nat.iter n _ gallery)) eqn:E.
Qed.

Lemma schedule_coalesces_witness :
  let s := Frames.mkState None [] 4 2 in
  let s1 := Nat.iter (S 2) Frames.schedule s in
  let s2 := Frames.run_frame s1 in
  Frames.raf s1 = Some 4 /\
  Frames.callbacks s1 = [4] /\
  Frames.next_id s1 = 5 /\
  Frames.layouts s1 = 2 /\
  Frames.raf s2 = None /\
  Frames.callbacks s2 = [] /\
  Frames.layouts s2 = 3 /\
  Frames.callbacks (Frames.schedule s2) = [5] /\
  forall gallery : GalleryEl, raf gallery = false ->
    raf (Nat.iter (S 2) schedule gallery) = true.
Proof.
  apply (schedule_coalesces (Frames.mkState None [] 4 2) 2); reflexivity.
Defined.

(** X19: masonry is enabled once per gallery: the first [enableMasonry]
    marks the gallery with [data-masonry="on"] and requests a frame, a second
    call changes nothing, and no call touches the children of the gallery. *)
Theorem enableMasonry_once (gallery : GalleryEl) :
  dataset_masonry (enableMasonry gallery) = Some "on" /\
  enableMasonry (enableMasonry gallery) = enableMasonry gallery /\
  g_children (enableMasonry gallery) = g_children gallery /\
  (dataset_masonry gallery <> Some "on" -> raf (enableMasonry gallery) = true) /\
  (dataset_masonry gallery = Some "on" -> enableMasonry gallery = gallery).
Proof.
  split; [|split; [apply enableMasonry_idemp|split; [apply enableMasonry_children|]]].
  - unfold enableMasonry, schedule. by case_bool_decide.
  - split; intros H; unfold enableMasonry, schedule.
    + by rewrite bool_decide_false.
    + by rewrite bool_decide_true.
Qed.

Lemma enableMasonry_once_witness :
  let g := mkGallery "gallery gallery-masonry" None false [] in
  dataset_masonry (enableMasonry g) = Some "on" /\
  enableMasonry (enableMasonry g) = enableMasonry g /\
  g_children (enableMasonry g) = g_children g /\
  raf (enableMasonry g) = true /\
  enableMasonry sample_gallery = sample_gallery.
Proof.
  pose proof (enableMasonry_once (mkGallery "gallery gallery-masonry" None false []))
    as (H1 & H2 & H3 & H4 & _).
  pose proof (enableMasonry_once sample_gallery) as (_ & _ & _ & _ & H5).
  exact (conj H1 (conj H2 (conj H3 (conj (H4 ltac:(discriminate)) (H5 eq_refl))))).
Defined.

Lemma string_app_assoc (a b c : string) : (a +:+ b) +:+ c = a +:+ (b +:+ c).
Proof.
  induction a as [|x a IH]; [done|].
  change (String x ((a +:+ b) +:+ c) = String x (a +:+ (b +:+ c))). by f_equal.
Qed.

Lemma string_app_nil_r (a : string) : a +:+ "" = a.
Proof.
  induction a as [|x a IH]; [done|].
  change (String x (a +:+ "") = String x a). by f_equal.
Qed.

Lemma class_tokens_from_word cur t rest :
  string_forall (fun c => negb (is_space c)) t = true ->
  class_tokens_from cur (t +:+ rest) = class_tokens_from (cur +:+ t) rest.
Proof.
  revert cur. induction t as [|c t IH]; intros cur H.
  - by rewrite string_app_nil_r.
  - cbn [string_forall] in H. apply andb_prop in H as [Hc Ht].
    apply negb_true_iff in Hc.
    change (String c t +:+ rest) with (String c (t +:+ rest)).
    cbn [class_tokens_from]. rewrite Hc, (IH _ Ht), string_app_assoc. done.
Qed.

Lemma class_tokens_join toks :
  Forall (fun t => is_token t = true) toks -> class_tokens (join_spaces toks) = toks.
Proof.
  unfold class_tokens. induction toks as [|t r IH]; intros H; [done|].
  apply Forall_cons in H as [Ht Hr]. unfold is_token in Ht.
  apply andb_prop in Ht as [Hne Hfree]. apply negb_true_iff in Hne.
  destruct r as [|t2 r].
  - cbn [join_spaces]. rewrite <- (string_app_nil_r t) at 1.
    rewrite class_tokens_from_word by done. cbn [class_tokens_from].
    change ("" +:+ t) with t. by rewrite Hne.
  - change (join_spaces (t :: t2 :: r)) with (t +:+ " " +:+ join_spaces (t2 :: r)).
    rewrite class_tokens_from_word by done.
    change (" " +:+ join_spaces (t2 :: r)) with (String " " (join_spaces (t2 :: r))).
    cbn [class_tokens_from]. change (is_space " ") with true. cbn match.
    change ("" +:+ t) with t. rewrite Hne. f_equal. by apply IH.
Qed.

Lemma string_forall_app P a b :
  string_forall P (a +:+ b) = string_forall P a && string_forall P b.
Proof.
  induction a as [|x a IH]; [done|].
  change (String x a +:+ b) with (String x (a +:+ b)).
  cbn [string_forall]. by rewrite IH, andb_assoc.
Qed.

Lemma class_tokens_from_tokens s : forall cur,
  string_forall (fun c => negb (is_space c)) cur = true ->
  Forall (fun t => is_token t = true) (class_tokens_from cur s).
Proof.
  induction s as [|c r IH]; intros cur Hcur; cbn [class_tokens_from].
  - destruct (String.eqb cur "") eqn:E; [done|].
    apply Forall_cons. split; [|done]. unfold is_token. by rewrite E, Hcur.
  - destruct (is_space c) eqn:Ec.
    + destruct (String.eqb cur "") eqn:E; [by apply IH|].
      apply Forall_cons. split; [|by apply IH]. unfold is_token. by rewrite E, Hcur.
    + apply IH. rewrite string_forall_app, Hcur. cbn. by rewrite Ec.
Qed.

Lemma set_append_elem_of set item x :
  x ∈ set_append set item <-> x ∈ set \/ x = item.
Proof.
  unfold set_append. case_bool_decide as Hin.
  - split; [by left | intros [H | ->]; done].
  - rewrite elem_of_app, list_elem_of_singleton. done.
Qed.

Lemma set_append_NoDup set item : NoDup set -> NoDup (set_append set item).
Proof.
  intros Hnd. unfold set_append. case_bool_decide as Hin; [done|].
  apply NoDup_app. split; [done|]. split; [|apply NoDup_singleton].
  intros x Hx Hx'. apply list_elem_of_singleton in Hx' as ->. done.
Qed.

Lemma foldl_set_append_elem_of (l : list string) : forall acc x,
  x ∈ foldl set_append acc l <-> x ∈ acc \/ x ∈ l.
Proof.
  induction l as [|t l IH]; intros acc x; simpl.
  - rewrite elem_of_nil. tauto.
  - rewrite IH, set_append_elem_of, elem_of_cons. tauto.
Qed.

Lemma foldl_set_append_NoDup (l : list string) : forall acc,
  NoDup acc -> NoDup (foldl set_append acc l).
Proof.
  induction l as [|t l IH]; intros acc Hacc; simpl; [done|].
  by apply IH, set_append_NoDup.
Qed.

(** A list without repetitions is its own ordered set. *)
Lemma foldl_set_append_id (l : list string) : forall acc,
  NoDup (acc ++ l) -> foldl set_append acc l = acc ++ l.
Proof.
  induction l as [|t l IH]; intros acc Hnd; simpl.
  - by rewrite app_nil_r.
  - assert (t ∉ acc) as Ht.
    { apply NoDup_app in Hnd as (_ & Hdisj & _). intros Hin.
      apply (Hdisj t Hin). apply list_elem_of_here. }
    unfold set_append at 2. rewrite bool_decide_false by done.
    rewrite IH; rewrite <- app_assoc; done.
Qed.

Lemma token_set_clean cls : Forall (fun t => is_token t = true) (token_set cls).
Proof.
  apply Forall_forall. intros t Ht. unfold token_set in Ht.
  apply foldl_set_append_elem_of in Ht as [Ht|Ht]; [by apply elem_of_nil in Ht|].
  pose proof (class_tokens_from_tokens cls "" eq_refl) as Hall.
  rewrite Forall_forall in Hall. by apply Hall.
Qed.

(** Adding a class twice is adding it once. *)
Lemma classList_add_idemp tok cls :
  is_token tok = true ->
  classList_add tok (classList_add tok cls) = classList_add tok cls.
Proof.
  intros Htok. unfold classList_add at 2.
  set (toks := token_set cls).
  assert (NoDup toks) as Hnd by (apply foldl_set_append_NoDup, NoDup_nil_2).
  pose proof (token_set_clean cls) as Hclean. fold toks in Hclean.
  set (toks' := set_append toks tok).
  assert (NoDup toks') as Hnd' by (by apply set_append_NoDup).
  assert (Forall (fun t => is_token t = true) toks') as Hclean'.
  { apply Forall_forall. intros t Ht. apply set_append_elem_of in Ht as [Ht | ->]; [|done].
    rewrite Forall_forall in Hclean. by apply Hclean. }
  assert (tok ∈ toks') as Hin' by (apply set_append_elem_of; by right).
  unfold classList_add, token_set.
  rewrite (class_tokens_join toks' Hclean').
  rewrite (foldl_set_append_id toks' []) by done. simpl.
  unfold set_append at 1. by rewrite bool_decide_true.
Qed.

Lemma layout_item_idemp parseFloat L k it :
  layout_item parseFloat L k (layout_item parseFloat L k it)
  = layout_item parseFloat L k it.
Proof.
  unfold layout_item. destruct (is_gallery_item it) eqn:E; [|by rewrite E].
  unfold is_gallery_item in *. simpl. by rewrite E.
Qed.

(** X20: the layout is idempotent: run twice on the same measurements,
    [layoutMasonry] leaves the gallery, its class list and the spans of its
    items, as the first run left it. *)
Theorem layoutMasonry_idempotent (parseFloat : string -> float) (L : Layout)
    (gallery : GalleryEl) :
  layoutMasonry parseFloat L (layoutMasonry parseFloat L gallery)
  = layoutMasonry parseFloat L gallery.
Proof.
  unfold layoutMasonry.
  destruct (negb (isConnected L)); [done|].
  destruct (Nat.eqb (clientRects L) 0); [done|].
  simpl. f_equal.
  - by apply classList_add_idemp.
  - apply list_eq. intros j. rewrite !list_lookup_imap.
    destruct (g_children gallery !! j); simpl; [by rewrite layout_item_idemp | done].
Qed.

Lemma figure_is_gallery_item v src alt span :
  is_gallery_item (mkItem (figureFor v src alt) span) = true.
Proof. by destruct v. Qed.

(** X21: in the masonry variant every image that [renderPortfolio] puts into
    a gallery gets a row span: once the panel is activated ([enableMasonry])
    and the frame callback has run on an attached gallery with layout boxes,
    each child of the gallery, one per image of the category and in order,
    carries the span computed from its own height; the figures are the ones
    built at render time, the request for the frame is cleared, and the
    gallery is marked as enabled. *)
Theorem rendered_gallery_layout (parseFloat : string -> float) (L : Layout)
    (m : Manifest) (c : Category) :
  isConnected L = true -> clientRects L <> 0 ->
  let g := frame parseFloat L
             (enableMasonry (panel_gallery (make_panel WithMasonry m c))) in
  gridRowEnd <$> g_children g
  = imap (fun k _ => Some (row_span (rect_height L k) (row_gap parseFloat L)))
      (images_or_empty c) /\
  item_node <$> g_children g
  = (fun file => figureFor WithMasonry (image_src m c file) (alt_text c))
      <$> images_or_empty c /\
  raf g = false /\
  dataset_masonry g = Some "on" /\
  g_className g = "gallery gallery-masonry gallery-masonry-enabled".
Proof.
  intros Hc Hr g.
  assert (Nat.eqb (clientRects L) 0 = false) as Hr' by (by apply Nat.eqb_neq).
  assert (g_children g
          = imap (layout_item parseFloat L)
              ((fun file => mkItem (figureFor WithMasonry (image_src m c file)
                                      (alt_text c)) None) <$> images_or_empty c))
    as Hkids.
  { subst g. unfold frame, layoutMasonry. cbn [isConnected]. rewrite Hc, Hr'.
    cbn [negb g_children]. by rewrite enableMasonry_children. }
  split; [|split].
  - rewrite Hkids. apply list_eq. intros j.
    rewrite list_lookup_fmap, !list_lookup_imap, list_lookup_fmap.
    destruct (images_or_empty c !! j) as [file|]; [|done].
    cbn [fmap option_fmap option_map]. unfold layout_item.
    by rewrite figure_is_gallery_item.
  - rewrite Hkids. apply list_eq. intros j.
    rewrite !list_lookup_fmap, list_lookup_imap, list_lookup_fmap.
    destruct (images_or_empty c !! j) as [file|]; [|done].
    cbn [fmap option_fmap option_map]. unfold layout_item.
    by rewrite figure_is_gallery_item.
  - subst g. unfold frame, layoutMasonry. rewrite Hc, Hr'. done.
Qed.

Lemma rendered_gallery_layout_witness :
  let c := mkCategory "food" (JStr "Food") (Some ["a.jpg"; "b.jpg"]) in
  let g := frame sample_parseFloat (sample_layout true)
             (enableMasonry (panel_gallery (make_panel WithMasonry sample_manifest c))) in
  gridRowEnd <$> g_children g
  = imap (fun k _ => Some (row_span (rect_height (sample_layout true) k)
                             (row_gap sample_parseFloat (sample_layout true))))
      (images_or_empty c) /\
  item_node <$> g_children g
  = (fun file => figureFor WithMasonry (image_src sample_manifest c file) (alt_text c))
      <$> images_or_empty c /\
  raf g = false /\
  dataset_masonry g = Some "on" /\
  g_className g = "gallery gallery-masonry gallery-masonry-enabled".
Proof.
  apply (rendered_gallery_layout sample_parseFloat (sample_layout true) sample_manifest
           (mkCategory "food" (JStr "Food") (Some ["a.jpg"; "b.jpg"]))).
  - reflexivity.
  - simpl. lia.
Defined.

(** ** The span is never below one *)

(** X22: the row span that [layoutMasonry] assigns is never below one: for
    every measured height and every gap, also degenerate ones, the number in
    [span n] does not compare less than 1. *)
Theorem row_span_at_least_one (height g : float) :
  (row_span height g <? 1)%float = false.
Proof.
  unfold row_span, Math_max.
  generalize (Math_ceil ((height + g) / (MASONRY_ROW_HEIGHT + g))%float).
  intros span.
  change (PrimFloat.is_nan 1) with false. cbn [orb].
  destruct (PrimFloat.is_nan span); [reflexivity|].
  destruct (1 <? span)%float eqn:E1.
  - rewrite ltb_spec in E1 |- *. exact (SFltb_asym _ _ E1).
  - destruct (span <? 1)%float; reflexivity.
Qed.

(** ** The featured strip at its edges *)

Lemma slice0_neg {A} (l : list A) (count : Z) :
  (count < 0)%Z ->
  slice0 l count = take (length l - Z.to_nat (- count)) l.
Proof.
  intros H. unfold slice0.
  destruct (count <? 0)%Z eqn:E; [|apply Z.ltb_ge in E; lia].
  f_equal. lia.
Qed.

Lemma appended_fmap {A} (f : A -> Child) rootId (l : list A) : forall d,
  foldl (fun d x => append_to rootId (f x) d) d l = appended rootId (f <$> l) d.
Proof. unfold appended. induction l as [|x l IH]; intros d; [done | apply IH]. Qed.

(** X23: a negative [count] counts from the end: with the manifest loaded,
    [renderFeatured(rootId, count)] with [count < 0] appends the figures of
    all entries of the flattened image list but the last [-count], in order,
    and nothing when the list has no more than [-count] entries. *)
Theorem renderFeatured_negative_count (v : Variant) (rootId : string) (count : Z)
    (w : World) (kids : list Child) (m : Manifest) (cs : list Category) :
  getElementById rootId w = Some kids ->
  location_protocol w <> "file:" ->
  network w = Response true (Some m) ->
  categories m = Some cs ->
  (count < 0)%Z ->
  let flat := flatten m cs in
  let taken := take (length flat - Z.to_nat (- count)) flat in
  renderFeatured v rootId (Some count) w
  = (Normal tt,
     set_document
       (appended rootId ((fun it => Static (figureFor v it.1 it.2)) <$> taken)
          (document w))
       (log_fetch MANIFEST_URL w)) /\
  getElementById rootId (snd (renderFeatured v rootId (Some count) w))
  = Some (kids ++ ((fun it => Static (figureFor v it.1 it.2)) <$> taken)) /\
  length taken = length flat - Z.to_nat (- count).
Proof.
  intros Hroot Hp Hn Hcs Hcount flat taken.
  assert (renderFeatured v rootId (Some count) w
          = (Normal tt,
             set_document
               (appended rootId ((fun it => Static (figureFor v it.1 it.2)) <$> taken)
                  (document w))
               (log_fetch MANIFEST_URL w))) as Heq.
  { unfold renderFeatured, bind at 1, get at 1. cbn beta iota.
    rewrite Hroot. unfold try_catch, bind at 1.
    rewrite (loadManifest_ok w m Hp Hn), Hcs.
    cbn [default]. rewrite slice0_neg by done.
    rewrite (forEach_appendChild (fun it => Static (figureFor v it.1 it.2))).
    by rewrite appended_fmap. }
  split; [done|]. rewrite Heq. split.
  - unfold getElementById. cbn [snd document set_document].
    by apply lookup_root_appended.
  - subst taken. rewrite length_take. lia.
Qed.

Lemma renderFeatured_negative_count_witness :
  let flat := flatten five_images (default [] (categories five_images)) in
  let taken := take (length flat - Z.to_nat (- (-2))) flat in
  renderFeatured Plain "featured" (Some (-2)%Z) (fresh_page "" five_images)
  = (Normal tt,
     set_document
       (appended "featured" ((fun it => Static (figureFor Plain it.1 it.2)) <$> taken)
          (document (fresh_page "" five_images)))
       (log_fetch MANIFEST_URL (fresh_page "" five_images))) /\
  getElementById "featured"
    (snd (renderFeatured Plain "featured" (Some (-2)%Z) (fresh_page "" five_images)))
  = Some ([] ++ ((fun it => Static (figureFor Plain it.1 it.2)) <$> taken)) /\
  length taken = length flat - Z.to_nat (- (-2)).
Proof.
  apply (renderFeatured_negative_count Plain "featured" (-2) (fresh_page "" five_images)
           [] five_images (default [] (categories five_images))).
  - reflexivity.
  - discriminate.
  - reflexivity.
  - reflexivity.
  - lia.
Defined.

(** X24: a manifest that loads but has no [categories] member is treated
    differently by the two entry points: [renderPortfolio] reads it as an
    empty list and reports "No images found." from its regular path, while
    [renderFeatured] runs into a [TypeError], catches it and reports
    "No featured images found."; each appends its one message to the root
    after one request for the manifest, and builds nothing else. *)
Theorem missing_categories (v : Variant) (rootId : string) (count : option Z)
    (w : World) (kids : list Child) (m : Manifest) :
  getElementById rootId w = Some kids ->
  location_protocol w <> "file:" ->
  network w = Response true (Some m) ->
  categories m = None ->
  renderPortfolio v rootId w
  = (Normal tt,
     set_document (append_to rootId (status_message "No images found.") (document w))
       (log_fetch MANIFEST_URL w)) /\
  renderFeatured v rootId count w
  = (Normal tt,
     set_document
       (append_to rootId (status_message "No featured images found.") (document w))
       (log_fetch MANIFEST_URL w)) /\
  getElementById rootId (snd (renderPortfolio v rootId w))
  = Some (kids ++ [status_message "No images found."]) /\
  getElementById rootId (snd (renderFeatured v rootId count w))
  = Some (kids ++ [status_message "No featured images found."]).
Proof.
  intros Hroot Hp Hn Hcs.
  assert (resolve_categories v m = []) as Hres.
  { apply resolve_categories_nil. rewrite Hcs. intros c Hc.
    by apply not_elem_of_nil in Hc. }
  assert (String.eqb (location_protocol w) "file:" = false) as Hp'
    by (by apply String.eqb_neq).
  assert (renderPortfolio v rootId w
          = (Normal tt,
             set_document
               (append_to rootId (status_message "No images found.") (document w))
               (log_fetch MANIFEST_URL w))) as H1.
  { unfold renderPortfolio, bind at 1, get at 1. cbn beta iota.
    rewrite Hroot. unfold try_catch, bind at 1.
    by rewrite (loadManifest_ok w m Hp Hn), Hres. }
  assert (renderFeatured v rootId count w
          = (Normal tt,
             set_document
               (append_to rootId (status_message "No featured images found.")
                  (document w))
               (log_fetch MANIFEST_URL w))) as H2.
  { unfold renderFeatured, bind at 1, get at 1. cbn beta iota.
    rewrite Hroot. unfold try_catch, bind at 1.
    rewrite (loadManifest_ok w m Hp Hn), Hcs.
    unfold throw, bind, get, root_appendChild, modify.
    cbn [location_protocol log_fetch]. by rewrite Hp'. }
  rewrite H1, H2. repeat split; try done.
  - unfold getElementById. cbn [snd document set_document].
    by apply lookup_root_append.
  - unfold getElementById. cbn [snd document set_document].
    by apply lookup_root_append.
Qed.

Lemma missing_categories_witness :
  let w := fresh_page "" (mkManifest "img" None) in
  renderPortfolio Plain "portfolio" w
  = (Normal tt,
     set_document (append_to "portfolio" (status_message "No images found.")
                     (document w))
       (log_fetch MANIFEST_URL w)) /\
  renderFeatured Plain "portfolio" None w
  = (Normal tt,
     set_document
       (append_to "portfolio" (status_message "No featured images found.") (document w))
       (log_fetch MANIFEST_URL w)) /\
  getElementById "portfolio" (snd (renderPortfolio Plain "portfolio" w))
  = Some ([Static (TextNode "Portfolio")] ++ [status_message "No images found."]) /\
  getElementById "portfolio" (snd (renderFeatured Plain "portfolio" None w))
  = Some ([Static (TextNode "Portfolio")] ++ [status_message "No featured images found."]).
Proof.
  apply (missing_categories Plain "portfolio" None
           (fresh_page "" (mkManifest "img" None))
           [Static (TextNode "Portfolio")] (mkManifest "img" None)).
  - reflexivity.
  - discriminate.
  - reflexivity.
  - reflexivity.
Defined.
